(* ===== verification/_CoqProject ===== *)
-Q . S2P
Prelude.v
Effects.v
KeepApi.v
Argparse.v
Script.v
Runs.v
Docstring.v
KeepModel.v
KeepMachine.v
Scenarios.v
