(* ===== verification/Prelude.v ===== *)
(** * A verification development of [google_keep_tags.py]

    The repository holds one Python script, [src/google_keep_tags.py]
    (56 lines).  It reads two command-line options with [argparse]
    (lines 45-48), reads the credentials [KEEP_EMAIL] and [KEEP_PASSWORD]
    from the environment and logs in to Google Keep through the external
    client library [gkeepapi] ([login], lines 21-30), looks the note up,
    finds or creates the label, adds the label to the note and
    synchronises ([add_label], lines 33-41), then prints a confirmation
    ([main], lines 44-52).  Every effect of the program is a call into
    something outside it: the process environment, the [gkeepapi]
    client (whose local object model and wire protocol are not part of
    the repository) and standard output.

    The development is a shallow embedding of the script over an explicit
    model of these collaborators.

    - [Prelude] (this file): the [py_scope] notations, the [keep] hint
      database, the development's tactics and the generic lemmas on
      strings, options and lists that the components share.
    - [Effects]: Python's side of the program: the exceptions that can
      reach the top level, the log of external calls ([event]), the world
      a run acts on (environment, client state, log, stdout, stderr) and
      a state-and-exception monad [PyM] over it, with its laws.
    - [KeepApi]: the interface the script relies on.  [KeepClient] is a
      type class with one operation per [gkeepapi] call the script makes
      ([Keep()], [login], [get], [findLabel], [createLabel],
      [note.labels.add], [sync]); [KeepLaws] states, against an abstract
      view of an account (notes with their label names, and the set of
      label names), what each call promises, following the collaborator
      contract of the spec (section 6).  The monadic bindings of the calls
      (each logs its [event]) are defined here.
    - [Argparse]: the parser configured at lines 45-48 (two required
      options [--note] and [--label] taking one value each, and the
      automatic [-h]/[--help]), following the [argparse] module of
      CPython 3.11: the scan with the ['--'] separator, exact and
      abbreviated long options, [--opt=value], [-h] and its clusters
      ([-hh], [-hx]), values that look like negative numbers, the
      conversion of the values ([_get_values], which turns an explicit
      ['--'] into the empty list), required-option and
      unrecognised-argument errors (exit status 2).
    - [Script]: [login], [add_label] and [main] as monadic programs
      written line by line from the source, and the process outcome
      (exit status 0, 1 for an uncaught exception, the [SystemExit] code).
      Its theorems are proved against [KeepLaws] only.
    - [Runs]: properties of whole runs of the process: what a run may
      call (bounds), and that it reaches the sync call.
    - [Docstring]: the statements of the module docstring (lines 7-13:
      environment variables, invocation, steps) as specifications, and
      the theorems that the code meets them.
    - [KeepModel]: an executable in-memory client (local model, remote
      copy, credentials, whether the service is reachable and whether it
      accepts changes on [sync]) that is an instance
      of [KeepClient] and discharges [KeepLaws] under its well-formedness
      invariant.  It is modelled from the spec, as [gkeepapi] is not part
      of the repository.
    - [KeepMachine]: the protocol a caller of the executable client must
      follow, as a labelled transition system over the logged calls
      ([km_step], one rule per [event]: reads only after a successful
      login, [createLabel] only for a name [findLabel] does not know,
      [note.labels.add] only with the note [get] returned and a label the
      client handed out), its paths ([km_trace]) and the same protocol as
      an executable replay of a log ([km_next], [km_replay]), proved
      equivalent; and the total-correctness theorems on this client.
    - [Scenarios]: a concrete account and worlds on the executable
      client, at which every theorem with hypotheses is applied (its
      witness), the hypotheses discharged by [vm_compute].

    Theorems, by group.
    - The argument parser ([Argparse]): the options in either order give
      the same namespace; [--note=N --label=L] gives back N and L for all
      strings but ['--']; the last occurrence of an option wins; [-h]
      first answers with the help; every prefix of three characters or
      more of an option is that option; a dash-led value is refused after
      [--note] but accepted in the [--note=V] form; every string value of
      an accepted namespace was written on the command line; the values
      are strings or the empty list, the latter from [--note=--]; a
      command line with ['--'] is never accepted; the [-h] cluster loop
      equals its closed form; and on every command line written as
      [--note]/[--label] arguments the parser refines the declarative
      reading "the last value of each option" ([spec_parse]), which
      [Script] composes with [main] ([process_render]).
    - [login] ([Script], section [Login]): a missing or empty credential
      raises the configuration error after the two environment reads and
      before any client call; otherwise one client creation and one login
      call, with its three outcomes.
    - [add_label] ([Script], sections [AddLabel*]): it refines the
      abstract operation [spec_add_label] (not-found error after the
      lookup alone; otherwise the session and the service hold the
      specified account); an existing label is not created again;
      applying a label twice is applying it once; and when the final
      [sync] fails the session holds the label while the service keeps
      the account it had (the partial application of spec section 4.2).
    - [main] and the process ([Script], sections [Process] to
      [Success]): the external calls happen in source order and stop at
      the first failure; the exit status is 0, 1 for every exception,
      0 for the help and 2 for a parser error; exit status 0 means the
      confirmation line was printed and the service stores the specified
      account; every run preserves the client's well-formedness.
    - Whole runs ([Runs]): a run creates at most one client, makes at
      most one login and one sync round trip and at most nine calls; once
      credentials are accepted and the note exists, its last call is
      [keep.sync()] unless label creation raised.
    - The docstring ([Docstring]): the documented invocation is accepted
      and runs lines 50-52; a successful run reads the documented
      variables and makes the documented calls in order, plus the note
      lookup and the sync the docstring leaves out.
    - [KeepModel]: the executable client satisfies every law of
      [KeepLaws] ([keep_model_laws]), so the theorems of [Script] hold of
      it; [Scenarios] applies each conditional theorem at a concrete
      input.
    - The client protocol ([KeepMachine]): every run of lines 50-52,
      whatever its outcome, logs calls that form a path of the protocol
      from the client's first state to its last, and a run that returns
      ends with [note.labels.add] of the requested label on the requested
      note followed by [keep.sync()]; on every well-formed account that
      answers and accepts the credentials, the documented invocation on an
      existing note succeeds, prints the confirmation and stores the
      label, and so does [--label=] with the empty label name.

    Bounds and fuel: the script has no loop and no integer arithmetic that
    can overflow; the parser recurses structurally on the argument list,
    so no fuel is needed anywhere.

    Not modelled: the wire protocol, authentication tokens and the real
    object model of [gkeepapi] (an external library, replaced by the
    [KeepClient] interface and its laws), hence what [gkeepapi] does when
    [main] hands it the list [[]] that [--note=--] or [--label=--]
    produces ([main] gives [None] for such a namespace); the wrapping of
    the usage and help lines, which are modelled as printed at the
    default width of 80 columns for a program name of at most 39
    characters (no line wraps there); the parts of the module docstring
    that are not about the program (the shebang and the installation
    instructions, lines 1-6). *)

From stdpp Require Import base strings gmap list.

(** ** Notations of the development *)

Declare Scope py_scope.
Delimit Scope py_scope with py.


(** Python's [s.startswith(p)]. *)
Definition str_startswith (s p : string) : bool := String.prefix p s.

(** Python's [c in s] for a one-character [c]. *)
Fixpoint str_has (c : Ascii.ascii) (s : string) : bool :=
  match s with
  | EmptyString => false
  | String d s' => if decide (c = d) then true else str_has c s'
  end.

(** Python's [s.partition(sep)] for a one-character separator: the part
    before the first [sep] and, when [sep] occurs, the part after it. *)
Fixpoint str_partition (c : Ascii.ascii) (s : string) : string * option string :=
  match s with
  | EmptyString => (EmptyString, None)
  | String d s' =>
      if decide (c = d) then (EmptyString, Some s')
      else let '(a, b) := str_partition c s' in (String d a, b)
  end.

(** Python's [s[n:]]. *)
Fixpoint str_drop (n : nat) (s : string) : string :=
  match n, s with
  | O, _ => s
  | S n', String _ s' => str_drop n' s'
  | S _, EmptyString => EmptyString
  end.

Notation "s '.startswith' p" := (str_startswith s p) (at level 20) : py_scope.
Notation "c 'in_s' s" := (str_has c s) (at level 70) : py_scope.

(** ** Hint database and tactics *)

Create HintDb keep discriminated.
Create Rewrite HintDb keep_rw.

Ltac invc H := inversion H; subst; clear H.

(** Split the [match]es and [if]s of a goal or hypothesis on an equation. *)
Ltac break_match :=
  match goal with
  | |- context [match ?x with _ => _ end] => destruct x eqn:?
  | H : context [match ?x with _ => _ end] |- _ => destruct x eqn:?
  end.

(** ** Generic lemmas on strings *)

Lemma str_partition_found c s a b :
  str_partition c s = (a, Some b) -> s = a +:+ String c b /\ str_has c a = false.
Proof.
  revert a b. induction s as [|d s IH]; intros a b H; simpl in H; [done|].
  case_decide; subst.
  - by invc H; rewrite ?decide_True.
  - destruct (str_partition c s) as [a' b'] eqn:E. invc H.
    destruct (IH a' b eq_refl) as [-> Ha]. simpl. rewrite decide_False; done.
Qed.

Lemma str_partition_none c s a :
  str_partition c s = (a, None) -> a = s /\ str_has c s = false.
Proof.
  revert a. induction s as [|d s IH]; intros a H; simpl in H; [by invc H|].
  case_decide; [done|].
  destruct (str_partition c s) as [a' b'] eqn:E. invc H.
  destruct (IH a' eq_refl) as [-> Hs]. simpl. by rewrite decide_False.
Qed.

(** [partition] splits a string built around the separator back into its
    two sides, when the left side does not contain the separator. *)
Lemma str_partition_app c a b :
  str_has c a = false -> str_partition c (a +:+ String c b) = (a, Some b).
Proof.
  induction a as [|d a IH]; intros Ha; simpl in *.
  - by rewrite decide_True.
  - case_decide; [done|]. by rewrite IH.
Qed.

Lemma str_partition_no_sep c s :
  str_has c s = false -> str_partition c s = (s, None).
Proof.
  induction s as [|d s IH]; intros Hs; simpl in *; [done|].
  case_decide; [done|]. by rewrite IH.
Qed.

Lemma str_startswith_app s p : str_startswith (p +:+ s) p = true.
Proof.
  unfold str_startswith. induction p as [|d p IH]; simpl.
  - by destruct s.
  - by destruct (Ascii.ascii_dec d d).
Qed.

(** ** Generic lemmas on lists *)

Lemma Forall_app_singleton {A} (P : A -> Prop) l x :
  Forall P (l ++ [x]) <-> Forall P l /\ P x.
Proof. by rewrite Forall_app, Forall_singleton. Qed.

#[export] Hint Rewrite @Forall_app_singleton : keep_rw.
#[export] Hint Resolve str_partition_app str_startswith_app : keep.

(** An association list whose values are distinct maps distinct keys to
    distinct values. *)
Lemma NoDup_snd_inj {A B} (l : list (A * B)) i j x :
  NoDup (snd <$> l) -> (i, x) ∈ l -> (j, x) ∈ l -> i = j.
Proof.
  induction l as [|[a b] l IH]; simpl; intros Hnd Hi Hj; [by apply not_elem_of_nil in Hi|].
  apply NoDup_cons in Hnd as [Hnot Hnd]. apply elem_of_cons in Hi, Hj.
  destruct Hi as [Hi|Hi], Hj as [Hj|Hj]; simplify_eq; [done| | |by eapply IH].
  - destruct Hnot. by apply (list_elem_of_fmap_2 snd) in Hj.
  - destruct Hnot. by apply (list_elem_of_fmap_2 snd) in Hi.
Qed.

(** ** Prefixes of a string *)

(** All prefixes of [s], shortest first. *)
Fixpoint str_prefixes (s : string) : list string :=
  match s with
  | EmptyString => [EmptyString]
  | String c s' => EmptyString :: (String c <$> str_prefixes s')
  end.

Lemma str_startswith_prefixes s p : str_startswith s p = true -> p ∈ str_prefixes s.
Proof.
  unfold str_startswith. revert p. induction s as [|c s IH]; intros [|d p]; simpl; try done.
  - intros _. by left.
  - intros _. left.
  - destruct (Ascii.ascii_dec d c) as [->|]; [|done]. intros Hp.
    right. apply list_elem_of_fmap. exists p. split; [done|]. by apply IH.
Qed.
