(* ===== verification/Effects.v ===== *)
(** * Effects: the Python side of a run of the script

    The script's effects are calls into its collaborators.  A run acts on
    a [world]: the process environment ([os.environ]), the state [K] of
    the [gkeepapi] client (its object graph and the service behind it),
    the log of external calls made so far, and the lines written to
    standard output and standard error.  [PyM K] is the state monad over
    the world with Python exceptions ([exn]); stdpp's [MRet]/[MBind]
    instances give it the [x ← c; k] notation.  The exceptions are those
    that can reach the top level of [main]: the [ValueError] and
    [RuntimeError] the script raises itself, an exception raised inside
    [gkeepapi] (propagated unchanged), and [SystemExit] raised by
    [argparse]. *)

From stdpp Require Import base strings gmap list.
From S2P Require Import Prelude.

(** ** Exceptions and external calls *)

Inductive exn :=
  | ValueError (msg : string)
  | RuntimeError (msg : string)
  | KeepError (msg : string)
  | SystemExit (code : nat).

(** One constructor per call the script makes to the outside. *)
Inductive event :=
  | EvGetenv (key : string)                      (** [os.environ.get(key)] *)
  | EvKeepNew                                    (** [gkeepapi.Keep()] *)
  | EvLogin (email password : string)            (** [keep.login(email, password)] *)
  | EvGet (note_id : string)                     (** [keep.get(note_id)] *)
  | EvFindLabel (name : string)                  (** [keep.findLabel(name)] *)
  | EvCreateLabel (name : string)                (** [keep.createLabel(name)] *)
  | EvLabelsAdd (note_id : string) (name : string) (** [note.labels.add(label)] *)
  | EvSync.                                      (** [keep.sync()] *)

#[export] Instance exn_eq_dec : EqDecision exn.
Proof. solve_decision. Qed.
#[export] Instance event_eq_dec : EqDecision event.
Proof. solve_decision. Qed.

(** The calls that reach the remote service (spec, sections 4.1 and 4.2):
    the login round trip and the synchronisation. *)
Definition is_network (e : event) : bool :=
  match e with
  | EvLogin _ _ | EvSync => true
  | _ => false
  end.

Definition is_create (e : event) : bool :=
  match e with EvCreateLabel _ => true | _ => false end.

Definition is_sync (e : event) : bool :=
  match e with EvSync => true | _ => false end.

(** ** The world and the monad *)

Record world (K : Type) := mkWorld {
  w_env : gmap string string;
  w_keep : K;
  w_log : list event;
  w_stdout : list string;
  w_stderr : list string
}.
Arguments mkWorld {K} _ _ _ _ _.
Arguments w_env {K} _.
Arguments w_keep {K} _.
Arguments w_log {K} _.
Arguments w_stdout {K} _.
Arguments w_stderr {K} _.

Definition set_keep {K} (k : K) (w : world K) : world K :=
  mkWorld (w_env w) k (w_log w) (w_stdout w) (w_stderr w).
Definition add_log {K} (e : event) (w : world K) : world K :=
  mkWorld (w_env w) (w_keep w) (w_log w ++ [e]) (w_stdout w) (w_stderr w).
Definition add_stdout {K} (s : string) (w : world K) : world K :=
  mkWorld (w_env w) (w_keep w) (w_log w) (w_stdout w ++ [s]) (w_stderr w).
Definition add_stderr {K} (s : string) (w : world K) : world K :=
  mkWorld (w_env w) (w_keep w) (w_log w) (w_stdout w) (w_stderr w ++ [s]).

Definition PyM (K A : Type) : Type := world K -> (exn + A) * world K.

#[export] Instance PyM_ret K : MRet (PyM K) := fun A x w => (inr x, w).
#[export] Instance PyM_bind K : MBind (PyM K) := fun A B f m w =>
  match m w with
  | (inl e, w') => (inl e, w')
  | (inr x, w') => f x w'
  end.

Definition raise {K A} (e : exn) : PyM K A := fun w => (inl e, w).

(** Record an external call in the log. *)
Definition emit {K} (e : event) : PyM K unit := fun w => (inr (), add_log e w).

Definition modify_keep {K} (f : K -> K) : PyM K unit :=
  fun w => (inr (), set_keep (f (w_keep w)) w).

Definition read_keep {K A} (f : K -> A) : PyM K A := fun w => (inr (f (w_keep w)), w).

(** [os.environ.get(key)]. *)
Definition env_lookup {K} (key : string) : PyM K (option string) :=
  fun w => (inr (w_env w !! key), w).

Definition getenv {K} (key : string) : PyM K (option string) :=
  emit (EvGetenv key);; env_lookup key.

(** [print(s)]: one line on standard output. *)
Definition print {K} (s : string) : PyM K unit := fun w => (inr (), add_stdout s w).

(** Python's truth value of [os.environ.get(...)]: [None] and the empty
    string are false. *)
Definition py_truthy (o : option string) : bool :=
  match o with
  | None => false
  | Some s => negb (bool_decide (s = EmptyString))
  end.

(** [appends m] holds when every run of [m] extends the log of its
    initial world. *)
Definition appends {K A} (m : PyM K A) : Prop :=
  forall w, exists l, w_log (m w).2 = w_log w ++ l.

(** ** Laws and running lemmas *)

Section Monad.
Context {K : Type}.
Implicit Types (w : world K).

Lemma run_ret {A} (x : A) w : (mret x : PyM K A) w = (inr x, w).
Proof. done. Qed.

Lemma run_bind {A B} (m : PyM K A) (f : A -> PyM K B) w :
  (m ≫= f) w = match m w with (inl e, w') => (inl e, w') | (inr x, w') => f x w' end.
Proof. done. Qed.

Lemma run_bind_ok {A B} (m : PyM K A) (f : A -> PyM K B) w x w' :
  m w = (inr x, w') -> (m ≫= f) w = f x w'.
Proof. intros H. by rewrite run_bind, H. Qed.

Lemma run_bind_err {A B} (m : PyM K A) (f : A -> PyM K B) w e w' :
  m w = (inl e, w') -> (m ≫= f) w = (inl e, w').
Proof. intros H. by rewrite run_bind, H. Qed.

Lemma bind_ret_l {A B} (x : A) (f : A -> PyM K B) w : (mret x ≫= f) w = f x w.
Proof. done. Qed.

Lemma bind_ret_r {A} (m : PyM K A) w : (m ≫= mret) w = m w.
Proof. rewrite run_bind. by destruct (m w) as [[]]. Qed.

Lemma bind_assoc {A B C} (m : PyM K A) (f : A -> PyM K B) (g : B -> PyM K C) w :
  ((m ≫= f) ≫= g) w = (m ≫= (fun x => f x ≫= g)) w.
Proof. rewrite !run_bind. by destruct (m w) as [[]]. Qed.
End Monad.


(** ** Programs that only append to the log *)

Lemma appends_ret {K A} (x : A) : appends (mret x : PyM K A).
Proof. intros w. exists []. by rewrite app_nil_r. Qed.

Lemma appends_bind {K A B} (m : PyM K A) (f : A -> PyM K B) :
  appends m -> (forall x, appends (f x)) -> appends (m ≫= f).
Proof.
  intros Hm Hf w. rewrite run_bind. destruct (Hm w) as [l1 Hl1].
  destruct (m w) as [[e|x] w'] eqn:E; simpl in *.
  - by exists l1.
  - destruct (Hf x w') as [l2 Hl2]. exists (l1 ++ l2). by rewrite Hl2, Hl1, app_assoc.
Qed.

Lemma appends_raise {K A} e : appends (raise e : PyM K A).
Proof. intros w. exists []. by rewrite app_nil_r. Qed.

Lemma appends_emit {K} e : appends (emit e : PyM K unit).
Proof. intros w. by exists [e]. Qed.

Lemma appends_modify_keep {K} (f : K -> K) : appends (modify_keep f).
Proof. intros w. exists []. by rewrite app_nil_r. Qed.

Lemma appends_read_keep {K A} (f : K -> A) : appends (read_keep f).
Proof. intros w. exists []. by rewrite app_nil_r. Qed.

Lemma appends_print {K} s : appends (print (K:=K) s).
Proof. intros w. exists []. by rewrite app_nil_r. Qed.

Lemma appends_getenv {K} key : appends (getenv (K:=K) key).
Proof. apply appends_bind; [apply appends_emit|]. intros _ w. exists []. by rewrite app_nil_r. Qed.

#[export] Hint Resolve appends_ret appends_bind appends_raise appends_emit
  appends_modify_keep appends_read_keep appends_print appends_getenv : keep.

Lemma py_truthy_Some s : py_truthy (Some s) = true <-> s <> EmptyString.
Proof. unfold py_truthy. rewrite negb_true_iff, bool_decide_eq_false. done. Qed.

(** ** Running the primitive steps under a continuation

    One equation per primitive, in the form [(c ≫= f) w = ...], so that
    [run] (below) executes a program step by step with [autorewrite]. *)
Section Steps.
Context {K : Type}.
Implicit Types (w : world K).

Lemma step_ret {A B} (x : A) (f : A -> PyM K B) w : (mret x ≫= f) w = f x w.
Proof. done. Qed.

Lemma step_raise {A B} e (f : A -> PyM K B) w : (raise e ≫= f) w = (inl e, w).
Proof. done. Qed.

Lemma step_emit {B} e (f : unit -> PyM K B) w : (emit e ≫= f) w = f () (add_log e w).
Proof. done. Qed.

Lemma step_getenv {B} key (f : option string -> PyM K B) w :
  (getenv key ≫= f) w = f (w_env w !! key) (add_log (EvGetenv key) w).
Proof. done. Qed.

Lemma step_print {B} s (f : unit -> PyM K B) w : (print s ≫= f) w = f () (add_stdout s w).
Proof. done. Qed.

Lemma step_modify_keep {B} g (f : unit -> PyM K B) w :
  (modify_keep g ≫= f) w = f () (set_keep (g (w_keep w)) w).
Proof. done. Qed.

Lemma step_read_keep {A B} (g : K -> A) (f : A -> PyM K B) w :
  (read_keep g ≫= f) w = f (g (w_keep w)) w.
Proof. done. Qed.

Lemma step_assoc {A B C} (m : PyM K A) (f : A -> PyM K B) (g : B -> PyM K C) w :
  ((m ≫= f) ≫= g) w = (m ≫= (fun x => f x ≫= g)) w.
Proof. apply bind_assoc. Qed.

Lemma add_log_env e w : w_env (add_log e w) = w_env w.
Proof. done. Qed.
Lemma add_log_keep e w : w_keep (add_log e w) = w_keep w.
Proof. done. Qed.
Lemma set_keep_env k w : w_env (set_keep k w) = w_env w.
Proof. done. Qed.
Lemma set_keep_keep k w : w_keep (set_keep k w) = k.
Proof. done. Qed.

Lemma run_raise {A} e w : (raise e : PyM K A) w = (inl e, w).
Proof. done. Qed.

Lemma run_print s w : print (K:=K) s w = (inr (), add_stdout s w).
Proof. done. Qed.
End Steps.

#[export] Hint Rewrite @step_assoc @step_ret @step_raise @step_emit @step_getenv
  @step_print @step_modify_keep @step_read_keep @run_ret @run_raise @run_print
  @add_log_env @add_log_keep @set_keep_env @set_keep_keep : keep_rw.

(** Execute a [PyM] program on a world by rewriting with its steps. *)
Ltac run := repeat progress (autorewrite with keep_rw; cbn beta iota).
