(* ===== verification/KeepApi.v ===== *)
(** * KeepApi: the [gkeepapi] calls the script makes, as an interface

    The script uses one object of the external client library: a
    [gkeepapi.Keep] session.  [KeepClient K] lists the calls made on it,
    over an abstract state [K] that holds the client's object graph and
    the service behind it; each call that can raise returns [inl msg]
    (the exception propagates unchanged through the script).  A note is
    designated by the key under which the session holds it, so that
    [note.labels.add(label)] on the object returned by [keep.get] updates
    the session's own store, as the aliasing in the Python code does.

    [KeepLaws K] is the contract of the collaborator (spec, section 6):
    against the abstract [account] view (each note's label names, and the
    account's label names), what [get], [findLabel], [createLabel],
    [labels.add], [sync] and [login] promise, under a well-formedness
    predicate [keep_wf] that the calls preserve.  The script's theorems
    are proved against this class only; [KeepModel] implements it.

    The last section binds each call into [PyM]: it records its [event]
    and then acts on the client state. *)

From stdpp Require Import base strings gmap list.
From S2P Require Import Prelude Effects.

(** ** Labels and the abstract account *)

Record label := mkLabel { label_id : N; label_name : string }.

#[export] Instance label_eq_dec : EqDecision label.
Proof. solve_decision. Qed.

(** What an account holds, as the script can observe it: the label names
    of every note, and the label names defined in the account (names are
    unique per account, spec section 3). *)
Record account := mkAccount {
  acc_notes : gmap string (gset string);
  acc_labels : gset string
}.

#[export] Instance account_eq_dec : EqDecision account.
Proof. solve_decision. Qed.

(** The account once label [name] exists. *)
Definition acc_define (name : string) (a : account) : account :=
  mkAccount (acc_notes a) ({[name]} ∪ acc_labels a).

(** The account once note [id] carries label [name] (set semantics). *)
Definition acc_tag (id name : string) (a : account) : account :=
  mkAccount (alter (union {[name]}) id (acc_notes a)) (acc_labels a).

Definition acc_has_note (id : string) (a : account) : bool :=
  bool_decide (is_Some (acc_notes a !! id)).

(** The abstract specification of label application (spec, section
    4.2): a missing note is an error; otherwise the label exists
    afterwards and the note carries it. *)
Definition spec_add_label (id name : string) (a : account) : option account :=
  if acc_has_note id a then Some (acc_tag id name (acc_define name a)) else None.

(** ** The calls *)

Class KeepClient (K : Type) := {
  keep_new : K -> K;                                       (** [gkeepapi.Keep()] *)
  keep_login : string -> string -> K -> (string + bool) * K;  (** [keep.login(e, p)] *)
  keep_get : string -> K -> option string;                 (** [keep.get(id)] *)
  keep_findLabel : string -> K -> option label;            (** [keep.findLabel(n)] *)
  keep_createLabel : string -> K -> (string + label) * K;  (** [keep.createLabel(n)] *)
  keep_labels_add : string -> label -> K -> K;             (** [note.labels.add(l)] *)
  keep_sync : K -> (string + unit) * K                     (** [keep.sync()] *)
}.

(** ** The contract *)

Class KeepLaws (K : Type) `{!KeepClient K} := {
  keep_wf : K -> Prop;
  keep_view : K -> option account;   (** the session's local model; [None] before login *)
  keep_remote : K -> account;        (** the account as the service stores it *)

  new_wf k : keep_wf k -> keep_wf (keep_new k);
  new_view k : keep_view (keep_new k) = None;
  new_remote k : keep_remote (keep_new k) = keep_remote k;

  login_wf e p k : keep_wf k -> keep_wf (keep_login e p k).2;
  login_ok e p k k' :
    keep_wf k -> keep_login e p k = (inr true, k') ->
    keep_view k' = Some (keep_remote k) /\ keep_remote k' = keep_remote k;

  get_spec id k : keep_wf k ->
    keep_get id k = match keep_view k with
                    | Some a => if acc_has_note id a then Some id else None
                    | None => None
                    end;

  findLabel_name n k l : keep_wf k -> keep_findLabel n k = Some l -> label_name l = n;
  findLabel_defined n k : keep_wf k ->
    is_Some (keep_findLabel n k) <->
    exists a, keep_view k = Some a /\ n ∈ acc_labels a;

  createLabel_wf n k : keep_wf k -> keep_wf (keep_createLabel n k).2;
  createLabel_fail n k e k' :
    keep_wf k -> keep_createLabel n k = (inl e, k') ->
    keep_view k' = keep_view k /\ keep_remote k' = keep_remote k;
  createLabel_ok n k a l k' :
    keep_wf k -> keep_view k = Some a -> n ∉ acc_labels a ->
    keep_createLabel n k = (inr l, k') ->
    keep_view k' = Some (acc_define n a) /\ keep_findLabel n k' = Some l /\
    keep_remote k' = keep_remote k;

  labels_add_wf id l k : keep_wf k ->
    keep_findLabel (label_name l) k = Some l -> keep_wf (keep_labels_add id l k);
  labels_add_view id l k a : keep_wf k -> keep_view k = Some a ->
    acc_has_note id a = true -> keep_findLabel (label_name l) k = Some l ->
    keep_view (keep_labels_add id l k) = Some (acc_tag id (label_name l) a) /\
    keep_remote (keep_labels_add id l k) = keep_remote k;

  sync_wf k : keep_wf k -> keep_wf (keep_sync k).2;
  sync_view k : keep_wf k -> keep_view (keep_sync k).2 = keep_view k;
  sync_ok k a k' : keep_wf k -> keep_view k = Some a ->
    keep_sync k = (inr (), k') -> keep_remote k' = a;
  sync_fail k m k' : keep_wf k -> keep_sync k = (inl m, k') -> keep_remote k' = keep_remote k
}.

Arguments keep_wf {K _ _} _.
Arguments keep_view {K _ _} _.
Arguments keep_remote {K _ _} _.

(** ** The calls in [PyM] *)

Section Bindings.
Context {K : Type} `{!KeepClient K}.

(** A call that can raise inside the library. *)
Definition call_keep {A} (f : K -> (string + A) * K) : PyM K A :=
  fun w => match f (w_keep w) with
           | (inl m, k') => (inl (KeepError m), set_keep k' w)
           | (inr x, k') => (inr x, set_keep k' w)
           end.

Definition Keep_new : PyM K unit := emit EvKeepNew;; modify_keep keep_new.

Definition Keep_login (email password : string) : PyM K bool :=
  emit (EvLogin email password);; call_keep (keep_login email password).

Definition Keep_get (id : string) : PyM K (option string) :=
  emit (EvGet id);; read_keep (keep_get id).

Definition Keep_findLabel (name : string) : PyM K (option label) :=
  emit (EvFindLabel name);; read_keep (keep_findLabel name).

Definition Keep_createLabel (name : string) : PyM K label :=
  emit (EvCreateLabel name);; call_keep (keep_createLabel name).

Definition Note_labels_add (note : string) (l : label) : PyM K unit :=
  emit (EvLabelsAdd note (label_name l));; modify_keep (keep_labels_add note l).

Definition Keep_sync : PyM K unit := emit EvSync;; call_keep keep_sync.
End Bindings.

#[export] Hint Unfold Keep_new Keep_login Keep_get Keep_findLabel Keep_createLabel
  Note_labels_add Keep_sync : keep.

Section Steps.
Context {K : Type} `{!KeepClient K}.
Implicit Types (w : world K).

Lemma appends_call_keep {A} (f : K -> (string + A) * K) : appends (call_keep f).
Proof.
  intros w. exists []. rewrite app_nil_r. unfold call_keep.
  by destruct (f (w_keep w)) as [[]].
Qed.

Lemma run_call_keep {A} (g : K -> (string + A) * K) w :
  call_keep g w = match g (w_keep w) with
                  | (inl m, k') => (inl (KeepError m), set_keep k' w)
                  | (inr x, k') => (inr x, set_keep k' w)
                  end.
Proof. done. Qed.

Lemma step_call_keep {A B} (g : K -> (string + A) * K) (f : A -> PyM K B) w :
  (call_keep g ≫= f) w = match g (w_keep w) with
                        | (inl m, k') => (inl (KeepError m), set_keep k' w)
                        | (inr x, k') => f x (set_keep k' w)
                        end.
Proof. unfold call_keep. rewrite run_bind. by destruct (g (w_keep w)) as [[]]. Qed.
End Steps.

#[export] Hint Rewrite @run_call_keep @step_call_keep : keep_rw.
#[export] Hint Resolve appends_call_keep : keep.


(** Unfold the call bindings and execute. *)
Ltac run_keep :=
  unfold Keep_new, Keep_login, Keep_get, Keep_findLabel, Keep_createLabel,
    Note_labels_add, Keep_sync; run.

(** ** The abstract account *)

Lemma acc_has_note_define id n a : acc_has_note id (acc_define n a) = acc_has_note id a.
Proof. done. Qed.

Lemma acc_has_note_tag id id' n a : acc_has_note id (acc_tag id' n a) = acc_has_note id a.
Proof.
  unfold acc_has_note, acc_tag; simpl. rewrite lookup_alter.
  by destruct (decide (id' = id)); [subst; destruct (acc_notes a !! id)|].
Qed.

Lemma acc_labels_tag id n a : acc_labels (acc_tag id n a) = acc_labels a.
Proof. done. Qed.

(** Adding a label name that the account already has changes nothing. *)
Lemma acc_define_present n a : n ∈ acc_labels a -> acc_define n a = a.
Proof. destruct a as [ns ls]. intros H. unfold acc_define; simpl in *. f_equal. set_solver. Qed.

(** Tagging twice is tagging once (set semantics of [note.labels]). *)
Lemma acc_tag_idem id n a : acc_tag id n (acc_tag id n a) = acc_tag id n a.
Proof.
  unfold acc_tag; simpl. f_equal. rewrite alter_alter_eq. apply alter_ext.
  intros s _. set_solver.
Qed.

Lemma acc_define_in n a : n ∈ acc_labels (acc_define n a).
Proof. simpl. set_solver. Qed.

#[export] Hint Rewrite acc_has_note_define acc_has_note_tag acc_labels_tag acc_tag_idem : keep_rw.
#[export] Hint Resolve acc_define_in : keep.

(** ** Consequences of the laws *)

Section LawFacts.
Context {K : Type} `{KeepLaws K}.

Lemma get_present k a id :
  keep_wf k -> keep_view k = Some a -> acc_has_note id a = true -> keep_get id k = Some id.
Proof. intros Hwf Hv Hn. by rewrite get_spec, Hv, Hn. Qed.

Lemma get_absent k a id :
  keep_wf k -> keep_view k = Some a -> acc_has_note id a = false -> keep_get id k = None.
Proof. intros Hwf Hv Hn. by rewrite get_spec, Hv, Hn. Qed.

Lemma findLabel_present k a n :
  keep_wf k -> keep_view k = Some a -> n ∈ acc_labels a ->
  exists l, keep_findLabel n k = Some l /\ label_name l = n.
Proof.
  intros Hwf Hv Hn. destruct (proj2 (findLabel_defined n k Hwf) (ex_intro _ a (conj Hv Hn))) as [l Hl].
  exists l. split; [done|]. by eapply findLabel_name.
Qed.

Lemma findLabel_absent k a n :
  keep_wf k -> keep_view k = Some a -> keep_findLabel n k = None -> n ∉ acc_labels a.
Proof.
  intros Hwf Hv Hf Hn. destruct (findLabel_present k a n Hwf Hv Hn) as [l [Hl _]]. congruence.
Qed.
End LawFacts.
