(* ===== verification/Argparse.v ===== *)
(** * Argparse: the command-line parser of [main] (lines 45-48)

    [main] builds an [argparse.ArgumentParser] with the automatic
    [-h]/[--help] action and two required options [--note] and [--label],
    each taking one value ([nargs=None], [type=str]), and calls
    [parse_args()].  This file models what that parser does with a list
    of argument strings, following the [argparse] module of CPython 3.11:

    - [classify] is [_parse_optional] with [_get_option_tuples]: a token
      is a value ('A'), an option of the parser (exactly, as
      [--opt=value], by an unambiguous prefix of a long option, or [-h]
      with characters attached), an unknown option ('O' with no action),
      or an ambiguous prefix.  Tokens that look like negative numbers or
      contain a space are values.  [classify_all] is the scan of
      [_parse_known_args]: the first ['--'] is the separator ('-') and
      every later argument a value; an ambiguous prefix is an error
      raised by the scan, before any action runs.
    - [consume] is the left-to-right loop of [_parse_known_args] and
      [consume_optional]: an option takes the explicit value or the next
      token when that token is a value, [-h] stops the parse with the
      help, [help_cluster] is the loop over [-h] with characters
      attached, values not taken by an option, the separator and unknown
      options are collected as extras.  [get_values] is [_get_values]:
      it removes a ['--'] value, which leaves the empty list.
    - [parse_args] adds the final checks: missing required options, then
      unrecognised extras (both errors, exit status 2).

    Strings are ASCII, so Python's [\d] is [0-9].  The theorems give the
    parser's behaviour on the forms a user writes (either order, the
    [=] form, abbreviations, repeated options, dash-led values, [-h]),
    that it invents no value, the types of the values, the rejection of
    ['--'], the closed form of the [-h] cluster loop, and that the
    parser refines a declarative reading of the command lines a user
    writes ([render], [spec_parse]: the last value of each option). *)

From stdpp Require Import base strings gmap list.
From Stdlib Require Import Ascii.
From S2P Require Import Prelude.

Local Open Scope string_scope.
Local Open Scope list_scope.

(** ** The parser's actions *)

Inductive opt := OptHelp | OptNote | OptLabel.

#[export] Instance opt_eq_dec : EqDecision opt.
Proof. solve_decision. Defined.

(** The option strings of the parser, in the order they were added
    (the order of [_option_string_actions]). *)
Definition option_strings : list (string * opt) :=
  [("-h", OptHelp); ("--help", OptHelp); ("--note", OptNote); ("--label", OptLabel)].

Definition lookup_option (s : string) : option opt :=
  (fun p : string * opt => p.2) <$> List.find (fun p => bool_decide (p.1 = s)) option_strings.

(** A value the [store] action puts in the namespace.  [_get_values]
    removes the first ['--'] from the argument strings of the action; a
    single remaining string is the value, otherwise the value is the list
    of the remaining strings. *)
Inductive pyval := VStr (s : string) | VList (xs : list string).

#[export] Instance pyval_eq_dec : EqDecision pyval.
Proof. solve_decision. Defined.

(** [_get_values(action, [v])] for [nargs=None], [type=str]. *)
Definition get_values (v : string) : pyval :=
  if bool_decide (v = "--") then VList [] else VStr v.

Arguments get_values : simpl never.

(** The [Namespace] returned by [parse_args()]. *)
Record namespace := mkNamespace { ns_note : pyval; ns_label : pyval }.

#[export] Instance namespace_eq_dec : EqDecision namespace.
Proof. solve_decision. Defined.

Inductive arg_error :=
  | ErrRequired (missing : list string)     (** the following arguments are required *)
  | ErrExpectedOne (o : opt)                (** expected one argument *)
  | ErrIgnoredExplicit (o : opt) (x : string) (** ignored explicit argument *)
  | ErrAmbiguous (tok : string) (matches : list string) (** ambiguous option *)
  | ErrUnrecognized (extras : list string). (** unrecognized arguments *)

Inductive parse_outcome :=
  | ArgsOk (ns : namespace)
  | ArgsHelp
  | ArgsError (e : arg_error).

(** ** Classifying a token ([_parse_optional]) *)

(** The pattern letter of a token and, for an 'O', the option tuple. *)
Inductive tok_class :=
  | TPos                                  (** a value: pattern 'A' *)
  | TSep                                  (** the first ['--']: pattern '-' *)
  | TOpt (o : opt) (explicit : option string)  (** [--opt], [--opt=x], [-h] *)
  | TShortHelp (explicit : string)        (** [-h] with characters attached *)
  | TUnknown                              (** 'O' with no action *)
  | TAmbiguous (matches : list string).

#[export] Instance tok_class_eq_dec : EqDecision tok_class.
Proof. solve_decision. Defined.

Definition is_digit (c : Ascii.ascii) : bool :=
  bool_decide (48 <= Ascii.nat_of_ascii c <= 57)%nat.

Fixpoint all_digits (s : string) : bool :=
  match s with
  | EmptyString => true
  | String c s' => is_digit c && all_digits s'
  end.

(** [\d*\.\d+] *)
Fixpoint digits_dot_digits (s : string) : bool :=
  match s with
  | EmptyString => false
  | String c s' =>
      if bool_decide (c = "."%char) then negb (bool_decide (s' = EmptyString)) && all_digits s'
      else is_digit c && digits_dot_digits s'
  end.

(** Python's [$] also matches before one final newline. *)
Definition strip_final_newline (s : string) : string :=
  match String.length s with
  | O => s
  | S n => if bool_decide (String.substring n 1 s = String "010"%char EmptyString)
           then String.substring 0 n s else s
  end.

(** [_negative_number_matcher = re.compile(r'^-\d+$|^-\d*\.\d+$')] *)
Definition looks_like_negative_number (s : string) : bool :=
  match strip_final_newline s with
  | String "-"%char r => (negb (bool_decide (r = EmptyString)) && all_digits r) || digits_dot_digits r
  | _ => false
  end.

(** The long options a prefix designates ([_get_option_tuples], two
    prefix characters). *)
Definition prefix_matches (p : string) : list (string * opt) :=
  filter (fun q => str_startswith q.1 p = true) option_strings.

(** The end of [_parse_optional] when no option matched: negative
    numbers and strings with a space are values. *)
Definition unmatched_class (s : string) : tok_class :=
  if looks_like_negative_number s then TPos
  else if str_has " "%char s then TPos
  else TUnknown.

Definition classify (s : string) : tok_class :=
  match s with
  | EmptyString => TPos
  | String c rest =>
    if negb (bool_decide (c = "-"%char)) then TPos
    else match lookup_option s with
    | Some o => TOpt o None
    | None =>
      if bool_decide (rest = EmptyString) then TPos
      else
        let '(before, after) := str_partition "="%char s in
        match after ≫= (fun x => (fun o => (o, x)) <$> lookup_option before) with
        | Some (o, x) => if bool_decide (before = "-h") then TShortHelp x else TOpt o (Some x)
        | None =>
          if str_startswith s "--" then
            match prefix_matches before with
            | [(_, o)] => TOpt o after
            | (_ :: _ :: _) as ms => TAmbiguous (fst <$> ms)
            | [] => unmatched_class s
            end
          else if str_startswith s "-h" then TShortHelp (str_drop 2 s)
          else unmatched_class s
        end
    end
  end.

(** The scan of [_parse_known_args]: every argument after the first
    ['--'] is a value. *)
Fixpoint classify_all (argv : list string) : list (string * tok_class) :=
  match argv with
  | [] => []
  | s :: rest =>
      if bool_decide (s = "--") then (s, TSep) :: ((fun t => (t, TPos)) <$> rest)
      else (s, classify s) :: classify_all rest
  end.

(** ** Consuming the tokens ([_parse_known_args]) *)

Record pstate := mkPState {
  ps_note : option pyval;
  ps_label : option pyval;
  ps_extras : list string
}.

Definition ps_set (o : opt) (v : pyval) (st : pstate) : pstate :=
  match o with
  | OptNote => mkPState (Some v) (ps_label st) (ps_extras st)
  | OptLabel => mkPState (ps_note st) (Some v) (ps_extras st)
  | OptHelp => st
  end.

Definition ps_extra (s : string) (st : pstate) : pstate :=
  mkPState (ps_note st) (ps_label st) (ps_extras st ++ [s]).

Inductive consume_result :=
  | CDone (st : pstate)
  | CHelp
  | CError (e : arg_error).

(** The loop of [consume_optional] on [-h] with the characters [x]
    attached: each further [h] is [-h] again, the help runs when nothing
    is left, any other character is an ignored explicit argument. *)
Fixpoint help_cluster (x : string) : consume_result :=
  match x with
  | String "h"%char EmptyString => CHelp
  | String "h"%char x' => help_cluster x'
  | _ => CError (ErrIgnoredExplicit OptHelp x)
  end.

Fixpoint consume (toks : list (string * tok_class)) (st : pstate) : consume_result :=
  match toks with
  | [] => CDone st
  | (_, TOpt OptHelp None) :: _ => CHelp
  | (_, TOpt OptHelp (Some x)) :: _ => CError (ErrIgnoredExplicit OptHelp x)
  | (_, TShortHelp x) :: _ => help_cluster x
  | (_, TOpt o (Some v)) :: rest => consume rest (ps_set o (get_values v) st)
  | (_, TOpt o None) :: (v, TPos) :: rest => consume rest (ps_set o (get_values v) st)
  | (_, TOpt o None) :: _ => CError (ErrExpectedOne o)
  | (s, _) :: rest => consume rest (ps_extra s st)
  end.

Definition first_ambiguous (toks : list (string * tok_class)) : option arg_error :=
  head (omap (fun p => match p.2 with
                       | TAmbiguous ms => Some (ErrAmbiguous p.1 ms)
                       | _ => None end) toks).

Definition missing_required (st : pstate) : list string :=
  match ps_note st with Some _ => [] | None => ["--note"] end ++
  match ps_label st with Some _ => [] | None => ["--label"] end.

(** [parser.parse_args(argv)] *)
Definition parse_args (argv : list string) : parse_outcome :=
  let toks := classify_all argv in
  match first_ambiguous toks with
  | Some e => ArgsError e
  | None =>
    match consume toks (mkPState None None []) with
    | CHelp => ArgsHelp
    | CError e => ArgsError e
    | CDone st =>
      match ps_note st, ps_label st with
      | Some n, Some l =>
          match ps_extras st with
          | [] => ArgsOk (mkNamespace n l)
          | xs => ArgsError (ErrUnrecognized xs)
          end
      | _, _ => ArgsError (ErrRequired (missing_required st))
      end
    end
  end.

(** The values of a namespace when both are strings, the type [add_label]
    declares for [note_id] and [label_name]. *)
Definition str_values (ns : namespace) : option (string * string) :=
  match ns_note ns, ns_label ns with
  | VStr n, VStr l => Some (n, l)
  | _, _ => None
  end.

(** The value an option received so far. *)
Definition ps_get (o : opt) (st : pstate) : option pyval :=
  match o with OptNote => ps_note st | OptLabel => ps_label st | OptHelp => None end.

(** [v] was written on the command line: as an argument, or after the
    first [=] of an argument. *)
Definition value_from_argv (v : string) (argv : list string) : Prop :=
  v ∈ argv \/ exists t, t ∈ argv /\ (str_partition "="%char t).2 = Some v.

(** The tokens the loop appends to the extras: values no option takes,
    the ['--'] and options of no action. *)
Definition is_extra (c : tok_class) : bool :=
  match c with TOpt _ _ | TShortHelp _ => false | _ => true end.

(** The characters of [x] after its leading [h]s: a closed form of the
    [-h] cluster loop. *)
Fixpoint strip_h (x : string) : string :=
  match x with
  | String "h"%char x' => strip_h x'
  | _ => x
  end.

(** ** A declarative reading of the command lines a user writes *)

(** An option written on the command line: [--note v] or [--note=v]. *)
Inductive opt_form := Separate | Joined.

Record opt_arg := mkOptArg { oa_opt : opt; oa_form : opt_form; oa_value : string }.

Definition long_option (o : opt) : string :=
  match o with OptHelp => "--help" | OptNote => "--note" | OptLabel => "--label" end.

Definition render_arg (a : opt_arg) : list string :=
  match oa_form a with
  | Separate => [long_option (oa_opt a); oa_value a]
  | Joined => [long_option (oa_opt a) +:+ "=" +:+ oa_value a]
  end.

Definition render (args : list opt_arg) : list string := args ≫= render_arg.

(** [--note] or [--label], with a separate value that reads as a value. *)
Definition arg_ok (a : opt_arg) : Prop :=
  oa_opt a <> OptHelp /\ (oa_form a = Separate -> classify (oa_value a) = TPos).

#[export] Instance opt_form_eq_dec : EqDecision opt_form.
Proof. solve_decision. Defined.

#[export] Instance arg_ok_dec a : Decision (arg_ok a).
Proof. unfold arg_ok. apply _. Defined.

(** The value the namespace holds for [o]: the last one given. *)
Definition last_value (o : opt) (args : list opt_arg) : option pyval :=
  last ((fun a => get_values (oa_value a)) <$> filter (fun a => oa_opt a = o) args).

Definition spec_parse (args : list opt_arg) : parse_outcome :=
  match last_value OptNote args, last_value OptLabel args with
  | Some n, Some l => ArgsOk (mkNamespace n l)
  | n, l => ArgsError (ErrRequired (match n with Some _ => [] | None => ["--note"] end ++
                                    match l with Some _ => [] | None => ["--label"] end))
  end.

(** The parser state after the options [args], one after the other. *)
Definition apply_args (args : list opt_arg) (st : pstate) : pstate :=
  foldl (fun st a => ps_set (oa_opt a) (get_values (oa_value a)) st) st args.

(** [v] is the value of an argument of [toks] that option [o] can take:
    a separate value, or the text after the [=] of an [o] token. *)
Definition from_tokens (o : opt) (v : pyval) (toks : list (string * tok_class)) : Prop :=
  exists s, v = get_values s /\ ((s, TPos) ∈ toks \/ exists t, (t, TOpt o (Some s)) ∈ toks).

(** ** Lemmas on the parser's loop *)

Lemma help_cluster_not_done x st : help_cluster x <> CDone st.
Proof.
  induction x as [|c x IH]; [done|].
  destruct c as [[] [] [] [] [] [] [] []]; try done. by destruct x.
Qed.

Lemma help_cluster_other c x :
  c <> "h"%char -> help_cluster (String c x) = CError (ErrIgnoredExplicit OptHelp (String c x)).
Proof. intros Hc. destruct c as [[] [] [] [] [] [] [] []]; try reflexivity; by destruct Hc. Qed.

Lemma strip_h_other c x : c <> "h"%char -> strip_h (String c x) = String c x.
Proof. intros Hc. destruct c as [[] [] [] [] [] [] [] []]; try reflexivity; by destruct Hc. Qed.

(** Induction along a run of [consume] that ends the loop: the three ways
    a token is consumed. *)
Section ConsumeInd.
Variable P : list (string * tok_class) -> pstate -> pstate -> Prop.
Hypothesis Pnil : forall st, P [] st st.
Hypothesis Pexplicit : forall s o v rest st st', o <> OptHelp ->
  consume rest (ps_set o (get_values v) st) = CDone st' ->
  P rest (ps_set o (get_values v) st) st' -> P ((s, TOpt o (Some v)) :: rest) st st'.
Hypothesis Pnext : forall s o v rest st st', o <> OptHelp ->
  consume rest (ps_set o (get_values v) st) = CDone st' ->
  P rest (ps_set o (get_values v) st) st' -> P ((s, TOpt o None) :: (v, TPos) :: rest) st st'.
Hypothesis Pextra : forall s c rest st st', is_extra c = true ->
  consume rest (ps_extra s st) = CDone st' ->
  P rest (ps_extra s st) st' -> P ((s, c) :: rest) st st'.

Lemma consume_done_ind toks st st' : consume toks st = CDone st' -> P toks st st'.
Proof.
  remember (length toks) as n eqn:Hn. revert toks st Hn.
  induction n as [n IH] using lt_wf_ind. intros toks st -> H.
  destruct toks as [|[s c] toks]; cbn [consume] in H; [injection H as <-; apply Pnil|].
  destruct c as [| |o [x|]|x| |ms];
    try (apply Pextra; [done|done|apply (IH (length toks)); [simpl; lia|done|done]]).
  - destruct o; [done| |];
      (apply Pexplicit; [done|done|apply (IH (length toks)); [simpl; lia|done|done]]).
  - destruct o; [done| |];
      (destruct toks as [|[v []] toks]; try done; cbn [consume] in H;
       apply Pnext; [done|done|apply (IH (length toks)); [simpl; lia|done|done]]).
  - by apply help_cluster_not_done in H.
Qed.
End ConsumeInd.

(** A loop that finishes on [t1] leaves no option waiting for its value,
    so the loop over [t1 ++ t2] continues on [t2]. *)
Lemma consume_app t1 t2 st st' :
  consume t1 st = CDone st' -> consume (t1 ++ t2) st = consume t2 st'.
Proof.
  intros H. revert t2.
  apply (consume_done_ind (fun t1 st st' => forall t2, consume (t1 ++ t2) st = consume t2 st'));
    [..|exact H].
  - done.
  - intros s o v rest st0 st0' Ho _ IH t2. destruct o; [done| |]; apply IH.
  - intros s o v rest st0 st0' Ho _ IH t2. destruct o; [done| |]; apply IH.
  - intros s c rest st0 st0' Hc _ IH t2. destruct c; try done; apply IH.
Qed.

Lemma parse_args_unfold argv :
  parse_args argv =
  let toks := classify_all argv in
  match first_ambiguous toks with
  | Some e => ArgsError e
  | None =>
    match consume toks (mkPState None None []) with
    | CHelp => ArgsHelp
    | CError e => ArgsError e
    | CDone st =>
      match ps_note st, ps_label st with
      | Some n, Some l =>
          match ps_extras st with
          | [] => ArgsOk (mkNamespace n l)
          | xs => ArgsError (ErrUnrecognized xs)
          end
      | _, _ => ArgsError (ErrRequired (missing_required st))
      end
    end
  end.
Proof. done. Qed.

(** ** Lemmas on values and tokens *)

Lemma get_values_str s : s <> "--" -> get_values s = VStr s.
Proof. intros Hs. unfold get_values. by rewrite bool_decide_false. Qed.

Lemma get_values_cases s :
  get_values s = VList [] \/ (get_values s = VStr s /\ s <> "--").
Proof. unfold get_values. case_bool_decide; [by left|by right]. Qed.

Lemma get_values_VStr s v : get_values s = VStr v -> s = v /\ v <> "--".
Proof. destruct (get_values_cases s) as [->|[-> Hs]]; [done|]. by intros [= ->]. Qed.

Lemma classify_pos_not_sep s : classify s = TPos -> s <> "--".
Proof. by intros H ->. Qed.

Lemma classify_all_cons s rest :
  s <> "--" -> classify_all (s :: rest) = (s, classify s) :: classify_all rest.
Proof. intros Hs. cbn [classify_all]. by rewrite bool_decide_false. Qed.

Lemma classify_all_app a1 a2 :
  "--" ∉ a1 -> classify_all (a1 ++ a2) = classify_all a1 ++ classify_all a2.
Proof.
  induction a1 as [|s a1 IH]; intros Hs; [done|].
  apply not_elem_of_cons in Hs as [Hs Hs1]. rewrite <- app_comm_cons.
  rewrite !classify_all_cons by done. by rewrite IH.
Qed.

(** Every token of the scan is an argument, classified by
    [_parse_optional] or a value after the ['--']. *)
Lemma classify_all_elem argv t c :
  (t, c) ∈ classify_all argv -> t ∈ argv /\ (c = classify t \/ c = TPos \/ c = TSep).
Proof.
  induction argv as [|s argv IH]; cbn [classify_all]; [by intros ?%elem_of_nil|].
  case_bool_decide as Hs.
  - intros [[= -> ->]|(t' & [= -> ->] & Ht)%list_elem_of_fmap]%elem_of_cons;
      split; (by left) || (by right) || naive_solver.
  - intros [[= -> ->]|Hin]%elem_of_cons; [split; [by left|by left]|].
    destruct (IH Hin) as [Ht Hc]. split; [by right|done].
Qed.

Lemma classify_all_sep argv : "--" ∈ argv -> ("--", TSep) ∈ classify_all argv.
Proof.
  induction argv as [|s argv IH]; intros Hin; [by apply elem_of_nil in Hin|].
  cbn [classify_all]. case_bool_decide as Hs; [subst; by left|].
  apply elem_of_cons in Hin as [Hin|Hin]; [by subst|]. right. by apply IH.
Qed.

Lemma first_ambiguous_app t1 t2 :
  first_ambiguous t1 = None -> first_ambiguous (t1 ++ t2) = first_ambiguous t2.
Proof.
  unfold first_ambiguous. rewrite omap_app.
  destruct (omap _ t1); [by rewrite app_nil_l|done].
Qed.

Lemma help_cluster_error x e :
  help_cluster x = CError e -> exists y, e = ErrIgnoredExplicit OptHelp y.
Proof.
  induction x as [|c x IH]; [intros [= <-]; by eexists|].
  destruct (decide (c = "h"%char)) as [->|Hc].
  - destruct x as [|d x']; [done|]. apply IH.
  - rewrite help_cluster_other by done. intros [= <-]. by eexists.
Qed.

(** The loop itself only reports an option without its value and an
    ignored explicit argument. *)
Lemma consume_error toks st e :
  consume toks st = CError e -> (exists o, e = ErrExpectedOne o) \/ (exists o y, e = ErrIgnoredExplicit o y).
Proof.
  remember (length toks) as n eqn:Hn. revert toks st Hn.
  induction n as [n IH] using lt_wf_ind. intros toks st -> H.
  destruct toks as [|[s c] toks]; cbn [consume] in H; [done|].
  destruct c as [| |o [x|]|x| |ms];
    try (apply (IH (length toks) ltac:(simpl; lia) toks _ eq_refl H)).
  - destruct o; [injection H as <-; right; by eexists _, _| |];
      apply (IH (length toks) ltac:(simpl; lia) toks _ eq_refl H).
  - destruct o; [done| |];
      (destruct toks as [|[v []] toks]; try (injection H as <-; left; by eexists);
       apply (IH (length toks) ltac:(simpl; lia) toks _ eq_refl H)).
  - right. destruct (help_cluster_error _ _ H) as [y ->]. by eexists _, _.
Qed.

Lemma first_ambiguous_Some toks e :
  first_ambiguous toks = Some e -> exists t ms, e = ErrAmbiguous t ms.
Proof.
  unfold first_ambiguous. intros He%head_Some_elem_of%list_elem_of_omap.
  destruct He as ([t c] & _ & Hc). destruct c; simplify_eq/=. by eexists _, _.
Qed.

Lemma ps_get_set o o' v st :
  ps_get o (ps_set o' v st) = if decide (o = o' /\ o <> OptHelp) then Some v else ps_get o st.
Proof.
  destruct o, o'; cbn; case_decide; try done; exfalso; naive_solver.
Qed.

Lemma ps_get_extra o s st : ps_get o (ps_extra s st) = ps_get o st.
Proof. by destruct o. Qed.

Lemma ps_extras_set o v st : ps_extras (ps_set o v st) = ps_extras st.
Proof. by destruct o. Qed.

Lemma from_tokens_cons o v x toks : from_tokens o v toks -> from_tokens o v (x :: toks).
Proof. intros (s & -> & [Hin|[t Hin]]); exists s; split; [done|left; by right|done|right; exists t; by right]. Qed.

(** What the loop leaves in an option was there before, or is the value
    of one of the tokens. *)
Lemma consume_provenance toks st st' :
  consume toks st = CDone st' ->
  forall o v, ps_get o st' = Some v -> ps_get o st = Some v \/ from_tokens o v toks.
Proof.
  intros H. apply (consume_done_ind (fun toks st st' => forall o v, ps_get o st' = Some v ->
                     ps_get o st = Some v \/ from_tokens o v toks)); [..|exact H].
  - intros st0 o v. by left.
  - intros s o' x rest st0 st0' Ho _ IH o v Hv.
    destruct (IH o v Hv) as [Hget|Hf]; [|right; by apply from_tokens_cons].
    rewrite ps_get_set in Hget. case_decide as Hd; [|by left].
    destruct Hd as [-> _]. injection Hget as <-. right. exists x. split; [done|]. right. exists s. by left.
  - intros s o' x rest st0 st0' Ho _ IH o v Hv.
    destruct (IH o v Hv) as [Hget|Hf]; [|right; by do 2 apply from_tokens_cons].
    rewrite ps_get_set in Hget. case_decide as Hd; [|by left].
    destruct Hd as [-> _]. injection Hget as <-. right. exists x. split; [done|]. left. right. by left.
  - intros s c rest st0 st0' _ _ IH o v Hv.
    destruct (IH o v Hv) as [Hget|Hf]; [left; by rewrite <- (ps_get_extra o s)|right; by apply from_tokens_cons].
Qed.

(** The ['--'] is never taken as a value: it ends in the extras. *)
Lemma consume_extras_sep toks st st' :
  consume toks st = CDone st' ->
  forall s, (s, TSep) ∈ toks \/ s ∈ ps_extras st -> s ∈ ps_extras st'.
Proof.
  intros H. apply (consume_done_ind (fun toks st st' => forall s,
                     (s, TSep) ∈ toks \/ s ∈ ps_extras st -> s ∈ ps_extras st')); [..|exact H].
  - intros st0 s [Hin|Hin]; [by apply elem_of_nil in Hin|done].
  - intros s0 o x rest st0 st0' _ _ IH s Hs. apply IH. rewrite ps_extras_set. set_solver.
  - intros s0 o x rest st0 st0' _ _ IH s Hs. apply IH. rewrite ps_extras_set. set_solver.
  - intros s0 c rest st0 st0' _ _ IH s Hs. apply IH. simpl. set_solver.
Qed.

(** An accepted command line has no ['--']. *)
Lemma parse_args_ok_no_sep argv ns : parse_args argv = ArgsOk ns -> "--" ∉ argv.
Proof.
  intros Hp Hin%classify_all_sep. revert Hp. rewrite parse_args_unfold. cbv zeta.
  destruct (first_ambiguous _); [done|]. destruct (consume _ _) as [st| |] eqn:Hc; try done.
  pose proof (consume_extras_sep _ _ _ Hc "--" (or_introl Hin)) as He.
  destruct (ps_note st), (ps_label st); try done.
  destruct (ps_extras st); [by apply elem_of_nil in He|done].
Qed.

Lemma unmatched_class_not_opt s o x : unmatched_class s <> TOpt o x.
Proof. unfold unmatched_class. by repeat case_match. Qed.

Lemma classify_explicit s o x :
  classify s = TOpt o (Some x) -> (str_partition "="%char s).2 = Some x.
Proof.
  unfold classify. destruct s as [|c rest]; [done|].
  destruct (negb _); [done|]. destruct (lookup_option _); [done|].
  destruct (bool_decide _); [done|].
  destruct (str_partition "="%char (String c rest)) as [before after] eqn:E. cbn [snd].
  destruct (after ≫= _) as [[o' x']|] eqn:Ea.
  - destruct (bool_decide _); [done|]. intros [= <- <-]. destruct after as [y|]; [|done]. cbn in Ea.
    apply fmap_Some in Ea as (o'' & _ & Heq). by injection Heq as _ ->.
  - destruct (str_startswith _ "--").
    + destruct (prefix_matches before) as [|[s1 o1] [|p2 ms]];
        [by intros ?%unmatched_class_not_opt|by intros [= <- ->]|done].
    + destruct (str_startswith _ "-h"); [done|by intros ?%unmatched_class_not_opt].
Qed.

(** An accepted command line: the loop finished with both options set
    and no extras. *)
Lemma parse_args_ok_inv argv ns :
  parse_args argv = ArgsOk ns ->
  first_ambiguous (classify_all argv) = None /\
  exists st, consume (classify_all argv) (mkPState None None []) = CDone st /\
    ps_get OptNote st = Some (ns_note ns) /\ ps_get OptLabel st = Some (ns_label ns) /\
    ps_extras st = [].
Proof.
  rewrite parse_args_unfold. cbv zeta. intros Hp.
  destruct (first_ambiguous _); [done|]. split; [done|].
  destruct (consume _ _) as [st| |] eqn:Hc; try done. exists st. split; [done|].
  destruct (ps_note st) eqn:Hn, (ps_label st) eqn:Hl; try done.
  destruct (ps_extras st) eqn:He; [|done]. by injection Hp as <-.
Qed.

Lemma parse_args_ok_from_tokens argv ns o v :
  parse_args argv = ArgsOk ns -> ps_get o (mkPState (Some (ns_note ns)) (Some (ns_label ns)) []) = Some v ->
  from_tokens o v (classify_all argv).
Proof.
  intros (_ & st & Hc & Hn & Hl & _)%parse_args_ok_inv Hv.
  assert (ps_get o st = Some v) as Hv' by (destruct o; simpl in *; congruence).
  by destruct (consume_provenance _ _ _ Hc o v Hv') as [Hnone|Hf]; [destruct o|].
Qed.

(** The scan of a command line without ['--'] classifies each argument. *)
Ltac scan_args :=
  repeat (rewrite classify_all_cons; [|first [discriminate | by apply classify_pos_not_sep]]);
  cbn [classify_all].

(** ** Properties of the parser *)

(** C10 (functional): the two required options given with plain values,
    in either order, give the namespace of those values. *)
Theorem parse_args_both_orders n l :
  classify n = TPos -> classify l = TPos ->
  parse_args ["--note"; n; "--label"; l] = ArgsOk (mkNamespace (VStr n) (VStr l)) /\
  parse_args ["--label"; l; "--note"; n] = ArgsOk (mkNamespace (VStr n) (VStr l)).
Proof.
  intros Hn Hl. rewrite !parse_args_unfold. scan_args. rewrite Hn, Hl. simpl.
  by rewrite !get_values_str by (by apply classify_pos_not_sep).
Qed.

(** C11 (roundtrip): printing two strings as [--note=<n> --label=<l>]
    and parsing the result gives them back, for every pair of strings
    other than ['--'] (values that look like options included). *)
Theorem parse_args_explicit_roundtrip n l :
  n <> "--" -> l <> "--" ->
  parse_args ["--note=" +:+ n; "--label=" +:+ l] = ArgsOk (mkNamespace (VStr n) (VStr l)).
Proof. intros Hn Hl. rewrite <- (get_values_str n Hn), <- (get_values_str l Hl). reflexivity. Qed.

(** C12 (functional): the last occurrence of an option wins: appending
    [--note <n>] to an accepted command line replaces the note and keeps
    the label. *)
Theorem parse_args_last_note_wins argv ns n :
  parse_args argv = ArgsOk ns -> classify n = TPos ->
  parse_args (argv ++ ["--note"; n]) = ArgsOk (mkNamespace (VStr n) (ns_label ns)).
Proof.
  intros Hp Hn. pose proof (parse_args_ok_no_sep _ _ Hp) as Hs.
  destruct (parse_args_ok_inv _ _ Hp) as (Ha & st & Hc & _ & Hl & He).
  rewrite parse_args_unfold, (classify_all_app _ _ Hs). cbv zeta.
  rewrite (first_ambiguous_app _ _ Ha), (consume_app _ _ _ _ Hc). scan_args. rewrite Hn.
  simpl in Hl |- *. rewrite Hl, He, get_values_str by (by apply classify_pos_not_sep). done.
Qed.

(** C16 (functional): [-h] first stops the parse with the help, whatever
    follows, unless a later argument is an ambiguous abbreviation (which
    argparse rejects while scanning, before any action runs). *)
Theorem parse_args_help_first argv :
  first_ambiguous (classify_all argv) = None -> parse_args ("-h" :: argv) = ArgsHelp.
Proof.
  intros Ha. rewrite parse_args_unfold, classify_all_cons by discriminate. cbv zeta.
  change (classify "-h") with (TOpt OptHelp None).
  assert (first_ambiguous (("-h", TOpt OptHelp None) :: classify_all argv) =
          first_ambiguous (classify_all argv)) as -> by reflexivity.
  by rewrite Ha.
Qed.

(** Every prefix of [--note] of three characters or more designates
    [--note], and likewise for [--label] and [--help]. *)
Lemma classify_prefixes_computed :
  Forall (fun p => (3 <= String.length p)%nat -> classify p = TOpt OptNote None) (str_prefixes "--note") /\
  Forall (fun p => (3 <= String.length p)%nat -> classify p = TOpt OptLabel None) (str_prefixes "--label") /\
  Forall (fun p => (3 <= String.length p)%nat -> classify p = TOpt OptHelp None) (str_prefixes "--help").
Proof.
  split_and!; repeat constructor; cbn [String.length]; intros; try lia; reflexivity.
Qed.

(** C17 (functional): abbreviations ([allow_abbrev]): every prefix of
    [--note] (resp. [--label], [--help]) of at least three characters is
    read as that option. *)
Theorem classify_abbreviations p :
  (3 <= String.length p)%nat ->
  (str_startswith "--note" p = true -> classify p = TOpt OptNote None) /\
  (str_startswith "--label" p = true -> classify p = TOpt OptLabel None) /\
  (str_startswith "--help" p = true -> classify p = TOpt OptHelp None).
Proof.
  intros Hlen. destruct classify_prefixes_computed as (Hn & Hl & Hh).
  rewrite Forall_forall in Hn, Hl, Hh.
  split_and!; intros Hp%str_startswith_prefixes; auto.
Qed.

(** C18 (error): every value that argparse reads as an option string
    (one starting with a dash that is not a negative number, [-h] and
    the option names included, but not an ambiguous prefix, which fails
    earlier) cannot follow [--note] as a separate argument: the parser
    reports that [--note] expected one argument; the [--note=VALUE] form
    accepts the same value. *)
Theorem parse_args_dash_values v l :
  v <> "--" -> classify v <> TPos -> (forall ms, classify v <> TAmbiguous ms) -> classify l = TPos ->
  parse_args ["--note"; v; "--label"; l] = ArgsError (ErrExpectedOne OptNote) /\
  parse_args ["--note=" +:+ v; "--label"; l] = ArgsOk (mkNamespace (VStr v) (VStr l)).
Proof.
  intros Hv Hpos Hamb Hl. split.
  - rewrite parse_args_unfold, (classify_all_cons "--note") by discriminate.
    rewrite (classify_all_cons v) by exact Hv. scan_args. rewrite Hl.
    destruct (classify v) eqn:Ec; [done|..|by destruct (Hamb matches)]; reflexivity.
  - rewrite <- (get_values_str v Hv), <- (get_values_str l (classify_pos_not_sep _ Hl)).
    rewrite parse_args_unfold. scan_args. rewrite Hl. reflexivity.
Qed.

(** C19 (functional): the parser invents no value: a string value of an
    accepted command line was written on it, as an argument or after the
    [=] of an argument. *)
Theorem parse_args_values_from_argv argv ns s :
  parse_args argv = ArgsOk ns -> ns_note ns = VStr s \/ ns_label ns = VStr s ->
  value_from_argv s argv.
Proof.
  intros Hp Hs.
  assert (exists o, from_tokens o (VStr s) (classify_all argv)) as (o & s0 & Hv & Hin).
  { destruct Hs as [Hs|Hs]; [exists OptNote|exists OptLabel];
      apply (parse_args_ok_from_tokens _ ns); [done|by rewrite <- Hs|done|by rewrite <- Hs]. }
  destruct (get_values_VStr s0 s (eq_sym Hv)) as [-> _].
  destruct Hin as [Hin|[t Hin]]; apply classify_all_elem in Hin as [Ht Hc].
  - by left.
  - right. exists t. split; [done|].
    destruct Hc as [Hc|[Hc|Hc]]; [by apply (classify_explicit t o)|done|done].
Qed.

(** C20 (type): the values of an accepted command line are Python
    strings other than ['--'], or the empty list: [--note=--] and
    [--label=--] give [[]], since [_get_values] removes the ['--'] from
    the option's arguments.  [add_label] declares both parameters [str]. *)
Theorem parse_args_value_types argv ns v :
  parse_args argv = ArgsOk ns -> v = ns_note ns \/ v = ns_label ns ->
  v = VList [] \/ exists s, v = VStr s /\ s <> "--".
Proof.
  intros Hp Hv.
  assert (exists o, from_tokens o v (classify_all argv)) as (o & s & -> & _).
  { destruct Hv as [->| ->]; [exists OptNote|exists OptLabel];
      by apply (parse_args_ok_from_tokens _ ns). }
  destruct (get_values_cases s) as [->|[-> Hs]]; [by left|right; by exists s].
Qed.

(** C21 (type): [--note=--] is accepted and sets the note to the empty
    list, which [main] passes to [add_label] and to [keep.get]: the
    command line has no string values. *)
Theorem parse_args_dashdash_note l :
  classify l = TPos ->
  parse_args ["--note=--"; "--label"; l] = ArgsOk (mkNamespace (VList []) (VStr l)) /\
  str_values (mkNamespace (VList []) (VStr l)) = None.
Proof.
  intros Hl. split; [|done]. rewrite parse_args_unfold. scan_args. rewrite Hl.
  simpl. by rewrite (get_values_str l) by (by apply classify_pos_not_sep).
Qed.

(** C22 (error): the conventional ['--'] separator is never accepted: the
    parser has no positional argument to take what follows it, so it ends
    in the unrecognized arguments (unless the help or another error comes
    first). *)
Theorem parse_args_separator_rejected argv :
  "--" ∈ argv ->
  (forall ns, parse_args argv <> ArgsOk ns) /\
  (forall xs, parse_args argv = ArgsError (ErrUnrecognized xs) -> "--" ∈ xs).
Proof.
  intros Hin%classify_all_sep. rewrite parse_args_unfold. cbv zeta.
  destruct (first_ambiguous _) as [e|] eqn:Ha.
  { destruct (first_ambiguous_Some _ _ Ha) as (t & ms & ->). split; [done|by intros xs [=]]. }
  destruct (consume _ _) as [st| |e] eqn:Hc; [|split; [done|by intros xs [=]]|].
  2:{ split; [done|]. intros xs [= ->]. by destruct (consume_error _ _ _ Hc) as [[o ?]|(o & y & ?)]. }
  pose proof (consume_extras_sep _ _ _ Hc "--" (or_introl Hin)) as He.
  destruct (ps_note st), (ps_label st); [|split; [done|by intros xs [=]]..].
  destruct (ps_extras st); [by apply elem_of_nil in He|]. split; [done|]. by intros xs [= <-].
Qed.

(** C23 (equivalence): the [-h] cluster loop of [consume_optional] is the
    closed form: [-hX] shows the help when [X] is made of [h]s only, and
    otherwise reports the characters after the leading [h]s as an ignored
    explicit argument. *)
Theorem help_cluster_strip_h x :
  help_cluster x = if bool_decide (x <> EmptyString /\ strip_h x = EmptyString) then CHelp
                   else CError (ErrIgnoredExplicit OptHelp (strip_h x)).
Proof.
  induction x as [|c x IH]; [done|].
  destruct (decide (c = "h"%char)) as [->|Hc].
  - destruct x as [|d x']; [done|].
    change (help_cluster (String "h" (String d x'))) with (help_cluster (String d x')).
    change (strip_h (String "h" (String d x'))) with (strip_h (String d x')).
    rewrite IH. by do 2 case_bool_decide; naive_solver.
  - rewrite help_cluster_other, strip_h_other by done.
    rewrite bool_decide_false; [done|]. by intros [_ ?].
Qed.

(** ** The declarative reading *)

Lemma classify_all_no_sep argv :
  "--" ∉ argv -> classify_all argv = (fun s => (s, classify s)) <$> argv.
Proof.
  induction argv as [|s argv IH]; intros Hs; [done|].
  apply not_elem_of_cons in Hs as [Hs Hs']. rewrite classify_all_cons by done. simpl. by rewrite IH.
Qed.

Lemma render_no_sep args : Forall arg_ok args -> "--" ∉ render args.
Proof.
  induction 1 as [|a args [Ho Hv] _ IH]; [by intros ?%elem_of_nil|].
  change (render (a :: args)) with (render_arg a ++ render args).
  rewrite elem_of_app. intros [Hin|Hin]; [|done].
  destruct a as [o [] v]; simpl in *.
  - apply elem_of_cons in Hin as [Hin|Hin]; [by destruct o|].
    apply list_elem_of_singleton in Hin. by apply (classify_pos_not_sep v (Hv eq_refl)).
  - apply list_elem_of_singleton in Hin. by destruct o.
Qed.

Lemma render_arg_toks a :
  arg_ok a ->
  (fun s => (s, classify s)) <$> render_arg a =
    match oa_form a with
    | Separate => [(long_option (oa_opt a), TOpt (oa_opt a) None); (oa_value a, TPos)]
    | Joined => [(long_option (oa_opt a) +:+ "=" +:+ oa_value a, TOpt (oa_opt a) (Some (oa_value a)))]
    end.
Proof.
  destruct a as [o [] v]; intros [Ho Hv]; cbn [oa_opt oa_form oa_value render_arg] in *;
    [rewrite <- (Hv eq_refl)|]; by destruct o.
Qed.

(** The loop over a rendered command line applies the options in turn. *)
Lemma consume_render args st :
  Forall arg_ok args ->
  consume ((fun s => (s, classify s)) <$> render args) st = CDone (apply_args args st) /\
  first_ambiguous ((fun s => (s, classify s)) <$> render args) = None.
Proof.
  intros Hok. revert st. induction Hok as [|a args Ha _ IH]; intros st; [done|].
  change (render (a :: args)) with (render_arg a ++ render args).
  rewrite fmap_app, (render_arg_toks a Ha). destruct Ha as [Ho _].
  destruct (IH (ps_set (oa_opt a) (get_values (oa_value a)) st)) as [Hc Ha'].
  destruct a as [o [] v]; cbn in Ho; (destruct o; [done| |]); split; (exact Hc || exact Ha').
Qed.

Lemma ps_get_apply o args st :
  o <> OptHelp ->
  ps_get o (apply_args args st) = match last_value o args with Some v => Some v | None => ps_get o st end.
Proof.
  intros Ho. induction args as [|a args IH] using rev_ind; [done|].
  unfold apply_args, last_value in *. rewrite foldl_app. cbn [foldl].
  rewrite ps_get_set, filter_app, filter_cons, filter_nil.
  case_decide as H1; case_decide as H2; try naive_solver.
  - by rewrite fmap_app, fmap_cons, fmap_nil, last_snoc.
  - by rewrite app_nil_r.
Qed.

Lemma ps_extras_apply args st : ps_extras (apply_args args st) = ps_extras st.
Proof.
  revert st. induction args as [|a args IH]; intros st; [done|].
  unfold apply_args in *. cbn [foldl]. by rewrite IH, ps_extras_set.
Qed.

(** The parser on a rendered command line. *)
Lemma parse_args_render args :
  Forall arg_ok args -> parse_args (render args) = spec_parse args.
Proof.
  intros Hok. rewrite parse_args_unfold, (classify_all_no_sep _ (render_no_sep _ Hok)). cbv zeta.
  destruct (consume_render args (mkPState None None []) Hok) as [-> ->].
  pose proof (ps_get_apply OptNote args (mkPState None None []) ltac:(done)) as Hn.
  pose proof (ps_get_apply OptLabel args (mkPState None None []) ltac:(done)) as Hl.
  cbn [ps_get] in Hn, Hl. unfold spec_parse, missing_required.
  rewrite Hn, Hl, ps_extras_apply.
  by destruct (last_value OptNote args), (last_value OptLabel args).
Qed.

(** C24 (refinement): on every command line written as a sequence of
    [--note v], [--note=v], [--label v] and [--label=v] (a separate value
    reading as a value), the parser implements the declarative reading:
    the namespace holds the last value given to each option, and a
    missing option is the required-arguments error. *)
Theorem parse_args_refines_spec args :
  Forall arg_ok args -> parse_args (render args) = spec_parse args.
Proof. apply parse_args_render. Qed.
