(* ===== verification/Script.v ===== *)
(** * Script: [login], [add_label] and [main] of [google_keep_tags.py]

    Each function of the script is a [PyM] program written line by line
    from the source, over any client [K] with [KeepClient K]; the
    theorems of this file assume only [KeepLaws K].  The session object
    returned by [login] is the client state held in the world (the
    process creates one), so [login] returns [()].  [main] is partial in
    one respect only: a namespace whose note or label is the list [[]]
    ([--note=--]) would hand that list to [gkeepapi], whose behaviour on
    a non-string argument is outside its contract; [main] gives [None]
    there.  [process] runs [main] as the interpreter does: exit status 0
    when it returns, the code of a [SystemExit], and 1 with the last line
    of the traceback on standard error for any other exception. *)

From stdpp Require Import base strings gmap list.
From Stdlib Require Import Ascii.
From S2P Require Import Prelude Effects KeepApi Argparse.

Local Open Scope string_scope.
Local Open Scope list_scope.

(** ** Messages of the script and of its parser *)

Definition msg_missing_credentials := "KEEP_EMAIL and KEEP_PASSWORD must be set".
Definition msg_login_failed := "Login to Google Keep failed".
Definition msg_not_found (note_id : string) := "Note " +:+ note_id +:+ " not found".
Definition msg_added (label note : string) :=
  "Label '" +:+ label +:+ "' added to note " +:+ note.

(** [os.path.basename]: the part after the last ['/']. *)
Fixpoint basename_acc (s acc : string) : string :=
  match s with
  | EmptyString => acc
  | String c s' => if bool_decide (c = "/"%char) then basename_acc s' EmptyString else basename_acc s' (acc +:+ String c EmptyString)
  end.
Definition basename (s : string) : string := basename_acc s EmptyString.

Definition usage_line (prog : string) :=
  "usage: " +:+ prog +:+ " [-h] --note NOTE --label LABEL".

(** [parser.print_help()] at the default width. *)
Definition help_lines (prog : string) : list string :=
  [usage_line prog; EmptyString; "Add or modify Google Keep labels"; EmptyString; "options:";
   "  -h, --help     show this help message and exit";
   "  --note NOTE    ID of the note to modify";
   "  --label LABEL  Label to add to the note"].

Fixpoint join (sep : string) (xs : list string) : string :=
  match xs with
  | [] => EmptyString
  | [x] => x
  | x :: xs' => x +:+ sep +:+ join sep xs'
  end.

(** Python's [repr] of a [str] whose characters are the code points
    0-255: quotes chosen as CPython does, backslash escapes for the
    quote, the backslash, tab, newline, carriage return and the other
    non-printable code points. *)
Definition hex_digit (n : nat) : ascii :=
  if bool_decide (n < 10)%nat then ascii_of_nat (48 + n) else ascii_of_nat (87 + n).

Definition bslash : ascii := ascii_of_nat 92.
Definition dquote : ascii := ascii_of_nat 34.

Definition repr_char (q : ascii) (c : ascii) : string :=
  let n := nat_of_ascii c in
  if bool_decide (c = q) || bool_decide (c = bslash) then String bslash (String c EmptyString)
  else if bool_decide (n = 9)%nat then "\t"
  else if bool_decide (n = 10)%nat then "\n"
  else if bool_decide (n = 13)%nat then "\r"
  else if bool_decide (n < 32 \/ 127 <= n <= 160 \/ n = 173)%nat then
    String bslash (String "x"%char (String (hex_digit (n / 16)) (String (hex_digit (n mod 16)) EmptyString)))
  else String c EmptyString.

Fixpoint repr_body (q : ascii) (s : string) : string :=
  match s with
  | EmptyString => EmptyString
  | String c s' => repr_char q c +:+ repr_body q s'
  end.

Definition py_repr (s : string) : string :=
  let q := if str_has "'"%char s && negb (str_has dquote s) then dquote else "'"%char in
  String q (repr_body q s +:+ String q EmptyString).

Definition opt_name (o : opt) : string :=
  match o with OptHelp => "-h/--help" | OptNote => "--note" | OptLabel => "--label" end.

Definition arg_error_msg (e : arg_error) : string :=
  match e with
  | ErrRequired ms => "the following arguments are required: " +:+ join ", " ms
  | ErrExpectedOne o => "argument " +:+ opt_name o +:+ ": expected one argument"
  | ErrIgnoredExplicit o x => "argument " +:+ opt_name o +:+ ": ignored explicit argument " +:+ py_repr x
  | ErrAmbiguous t ms => "ambiguous option: " +:+ t +:+ " could match " +:+ join ", " ms
  | ErrUnrecognized xs => "unrecognized arguments: " +:+ join " " xs
  end.

Section Script.
Context {K : Type} `{!KeepClient K}.

Definition eprint (s : string) : PyM K unit := fun w => (inr (), add_stderr s w).

Fixpoint print_lines (ls : list string) : PyM K unit :=
  match ls with [] => mret () | l :: ls' => print l;; print_lines ls' end.

(** Lines 21-30. *)
Definition login : PyM K unit :=
  email ← getenv "KEEP_EMAIL";
  password ← getenv "KEEP_PASSWORD";
  if negb (py_truthy email) || negb (py_truthy password) then
    raise (ValueError msg_missing_credentials)
  else
    Keep_new;;
    success ← Keep_login (default EmptyString email) (default EmptyString password);
    if negb success then raise (RuntimeError msg_login_failed) else mret ().

(** Lines 40-41: [note.labels.add(label); keep.sync()]. *)
Definition tag_and_sync (note : string) (l : label) : PyM K unit :=
  Note_labels_add note l;; Keep_sync.

(** Lines 33-41. *)
Definition add_label (note_id label_name : string) : PyM K unit :=
  note ← Keep_get note_id;
  match note with
  | None => raise (ValueError (msg_not_found note_id))
  | Some note =>
      label ← Keep_findLabel label_name;
      label ← match label with
              | None => Keep_createLabel label_name
              | Some l => mret l
              end;
      Note_labels_add note label;;
      Keep_sync
  end.

(** [parser.parse_args()] (line 48) in [PyM]: the help goes to standard
    output and exits with status 0, an error writes the usage and the
    message to standard error and exits with status 2.  The result is
    the pair [(args.note, args.label)] when both are strings; a value
    that is a list ([--note=--]) would reach [gkeepapi] as a note id or
    a label name, outside the client's contract, and gives [None]. *)
Definition parse_phase (prog : string) (argv : list string) : option (PyM K (string * string)) :=
  match parse_args argv with
  | ArgsOk ns => mret <$> str_values ns
  | ArgsHelp => Some (print_lines (help_lines prog);; raise (SystemExit 0))
  | ArgsError e =>
      Some (eprint (usage_line prog);;
            eprint (prog +:+ ": error: " +:+ arg_error_msg e);;
            raise (SystemExit 2))
  end.

(** Lines 50-52, with [args.note = note] and [args.label = label_name]. *)
Definition main_body (note label_name : string) : PyM K unit :=
  login;;
  add_label note label_name;;
  print (msg_added label_name note).

(** Lines 44-52, for the command line [argv0 :: argv]. *)
Definition main (argv0 : string) (argv : list string) : option (PyM K unit) :=
  (fun p => args ← p; main_body args.1 args.2) <$> parse_phase (basename argv0) argv.

Definition exn_line (e : exn) : string :=
  match e with
  | ValueError m => "ValueError: " +:+ m
  | RuntimeError m => "RuntimeError: " +:+ m
  | KeepError m => m
  | SystemExit _ => EmptyString
  end.

(** The interpreter's handling of the outcome of [main()] (line 56). *)
Definition finish (r : exn + unit) (w : world K) : nat * world K :=
  match r with
  | inr _ => (0%nat, w)
  | inl (SystemExit c) => (c, w)
  | inl e => (1%nat, add_stderr (exn_line e) w)
  end.

Definition process (argv0 : string) (argv : list string) (w : world K) : option (nat * world K) :=
  (fun m => let '(r, w') := m w in finish r w') <$> main argv0 argv.
(** The log of [login] up to its two environment reads. *)
Definition creds_logged (w : world K) : world K :=
  add_log (EvGetenv "KEEP_PASSWORD") (add_log (EvGetenv "KEEP_EMAIL") w).
End Script.

(** ** The calls of a complete run, in order *)

Definition login_calls (e p : string) : list event :=
  [EvGetenv "KEEP_EMAIL"; EvGetenv "KEEP_PASSWORD"; EvKeepNew; EvLogin e p].

Definition add_label_calls (id n : string) (created : bool) : list event :=
  [EvGet id; EvFindLabel n] ++ (if created then [EvCreateLabel n] else []) ++ [EvLabelsAdd id n; EvSync].


(** ** [login] *)

Section Login.
Context {K : Type} `{!KeepClient K}.
Implicit Types (w : world K).


(** [login] executed: the guard, then the one login call. *)
Lemma login_run w :
  let e := default EmptyString (w_env w !! "KEEP_EMAIL") in
  let p := default EmptyString (w_env w !! "KEEP_PASSWORD") in
  let w1 := add_log (EvLogin e p) (set_keep (keep_new (w_keep w)) (add_log EvKeepNew (creds_logged w))) in
  login w =
    if negb (py_truthy (w_env w !! "KEEP_EMAIL")) || negb (py_truthy (w_env w !! "KEEP_PASSWORD"))
    then (inl (ValueError msg_missing_credentials), creds_logged w)
    else match keep_login e p (keep_new (w_keep w)) with
         | (inl m, k') => (inl (KeepError m), set_keep k' w1)
         | (inr false, k') => (inl (RuntimeError msg_login_failed), set_keep k' w1)
         | (inr true, k') => (inr (), set_keep k' w1)
         end.
Proof.
  unfold login. run_keep. destruct (_ || _); [done|]. run_keep.
  by destruct (keep_login _ _ _) as [[m|[]] k'].
Qed.

(** C2: a missing or empty credential stops [login] with the
    configuration error after the two environment reads: no client is
    created and no network call is made. *)
Theorem login_missing_credentials w :
  py_truthy (w_env w !! "KEEP_EMAIL") = false \/ py_truthy (w_env w !! "KEEP_PASSWORD") = false ->
  login w = (inl (ValueError msg_missing_credentials), creds_logged w).
Proof.
  intros H. rewrite login_run. simpl.
  destruct H as [-> | ->]; [done|]. by rewrite orb_true_r.
Qed.

(** C3: with both credentials present, [login] creates the client,
    makes exactly one login call, and ends in one of three ways: the
    library's exception propagates, a false reply raises the
    authentication error, a true reply returns. *)
Theorem login_with_credentials w e p :
  w_env w !! "KEEP_EMAIL" = Some e -> e <> EmptyString ->
  w_env w !! "KEEP_PASSWORD" = Some p -> p <> EmptyString ->
  let w1 := add_log (EvLogin e p) (set_keep (keep_new (w_keep w)) (add_log EvKeepNew (creds_logged w))) in
  login w = match keep_login e p (keep_new (w_keep w)) with
            | (inl m, k') => (inl (KeepError m), set_keep k' w1)
            | (inr false, k') => (inl (RuntimeError msg_login_failed), set_keep k' w1)
            | (inr true, k') => (inr (), set_keep k' w1)
            end.
Proof.
  intros He Hne Hp Hpne w1. rewrite login_run. simpl. rewrite He, Hp.
  apply py_truthy_Some in Hne, Hpne. by rewrite Hne, Hpne.
Qed.
End Login.

(** ** [add_label] *)

Section AddLabel.
Context {K : Type} `{!KeepClient K}.
Implicit Types (w : world K).


Lemma tag_and_sync_run note l w :
  let w1 := set_keep (keep_labels_add note l (w_keep w)) (add_log (EvLabelsAdd note (label_name l)) w) in
  tag_and_sync note l w =
    match keep_sync (w_keep w1) with
    | (inl m, k') => (inl (KeepError m), set_keep k' (add_log EvSync w1))
    | (inr x, k') => (inr x, set_keep k' (add_log EvSync w1))
    end.
Proof. unfold tag_and_sync. by run_keep. Qed.

(** [add_label] executed: its branches on the replies of the client. *)
Lemma add_label_run w id n :
  add_label id n w =
  match keep_get id (w_keep w) with
  | None => (inl (ValueError (msg_not_found id)), add_log (EvGet id) w)
  | Some r =>
    let w1 := add_log (EvFindLabel n) (add_log (EvGet id) w) in
    match keep_findLabel n (w_keep w) with
    | Some l => tag_and_sync r l w1
    | None =>
        match keep_createLabel n (w_keep w) with
        | (inl m, k') => (inl (KeepError m), set_keep k' (add_log (EvCreateLabel n) w1))
        | (inr l, k') => tag_and_sync r l (set_keep k' (add_log (EvCreateLabel n) w1))
        end
    end
  end.
Proof.
  unfold add_label. run_keep. destruct (keep_get id (w_keep w)) as [r|]; [|done].
  run_keep. fold (tag_and_sync r).
  destruct (keep_findLabel n (w_keep w)) as [l|]; [by run|].
  run_keep. by destruct (keep_createLabel n (w_keep w)) as [[m|l] k'].
Qed.
End AddLabel.

Section AddLabelLaws.
Context {K : Type} `{KeepLaws K}.
Implicit Types (w : world K).

(** [note.labels.add(label); keep.sync()] on a note of the session,
    with a label the session knows. *)
Lemma tag_and_sync_spec w r l a :
  keep_wf (w_keep w) -> keep_view (w_keep w) = Some a -> acc_has_note r a = true ->
  keep_findLabel (label_name l) (w_keep w) = Some l ->
  let '(res, w') := tag_and_sync r l w in
  w_log w' = w_log w ++ [EvLabelsAdd r (label_name l); EvSync] /\
  keep_wf (w_keep w') /\
  keep_view (w_keep w') = Some (acc_tag r (label_name l) a) /\
  (res = inr () -> keep_remote (w_keep w') = acc_tag r (label_name l) a) /\
  (forall e, res = inl e ->
     (exists m, e = KeepError m) /\ keep_remote (w_keep w') = keep_remote (w_keep w)).
Proof.
  intros Hwf Hv Hn Hl. rewrite tag_and_sync_run; simpl.
  destruct (labels_add_view r l (w_keep w) a Hwf Hv Hn Hl) as [Hv1 Hr1].
  pose proof (labels_add_wf r l (w_keep w) Hwf Hl) as Hwf1.
  pose proof (sync_wf _ Hwf1) as Hwf2. pose proof (sync_view _ Hwf1) as Hv2.
  destruct (keep_sync (keep_labels_add r l (w_keep w))) as [[m|[]] k2] eqn:Hs; simpl in *;
    (split; [by rewrite <- app_assoc|]); split_and!; try done; try congruence.
  all: first [ intros e He; injection He as <-; split; [by exists m|];
               rewrite <- Hr1; by eapply sync_fail
             | intros _; eapply sync_ok; [exact Hwf1|exact Hv1|exact Hs] ].
Qed.

(** [add_label] when the label already exists: no creation. *)
Lemma add_label_existing_run w id n a :
  keep_wf (w_keep w) -> keep_view (w_keep w) = Some a ->
  acc_has_note id a = true -> n ∈ acc_labels a ->
  w_log (add_label id n w).2 = w_log w ++ [EvGet id; EvFindLabel n; EvLabelsAdd id n; EvSync] /\
  keep_view (w_keep (add_label id n w).2) = Some (acc_tag id n a).
Proof.
  intros Hwf Hv Hn Hl.
  destruct (findLabel_present _ _ _ Hwf Hv Hl) as [l [Hf Hname]].
  rewrite add_label_run, (get_present _ _ _ Hwf Hv Hn), Hf.
  pose proof (tag_and_sync_spec (add_log (EvFindLabel n) (add_log (EvGet id) w)) id l a Hwf Hv Hn)
    as Hts. rewrite Hname in Hts. specialize (Hts Hf).
  destruct (tag_and_sync id l _) as [res w'].
  destruct Hts as (Hlog & _ & Hv' & _). simpl. split; [|done].
  rewrite Hlog. simpl. by rewrite <- !app_assoc.
Qed.

(** [add_label] on a note of the session refines [spec_add_label]. *)
Lemma add_label_sound w id n a :
  keep_wf (w_keep w) -> keep_view (w_keep w) = Some a -> acc_has_note id a = true ->
  let a' := acc_tag id n (acc_define n a) in
  let '(r, w') := add_label id n w in
  keep_wf (w_keep w') /\
  match r with
  | inr _ => keep_view (w_keep w') = Some a' /\ keep_remote (w_keep w') = a'
  | inl (KeepError _) => keep_view (w_keep w') = Some a' \/ keep_view (w_keep w') = Some a
  | inl _ => False
  end.
Proof.
  intros Hwf Hv Hn a'. rewrite add_label_run, (get_present _ _ _ Hwf Hv Hn).
  destruct (keep_findLabel n (w_keep w)) as [l|] eqn:Hf.
  - assert (n ∈ acc_labels a) as Hin.
    { destruct (proj1 (findLabel_defined n _ Hwf) (ex_intro _ l Hf)) as (a0 & Hv0 & Hin0).
      congruence. }
    pose proof (findLabel_name _ _ _ Hwf Hf) as Hname.
    pose proof (tag_and_sync_spec (add_log (EvFindLabel n) (add_log (EvGet id) w)) id l a Hwf Hv Hn)
      as Hts. rewrite Hname in Hts. specialize (Hts Hf).
    unfold a'. rewrite acc_define_present by done.
    destruct (tag_and_sync id l _) as [[e|[]] w'].
    destruct Hts as (_ & Hwf' & Hv' & _ & Hexn).
    + destruct (Hexn e eq_refl) as [[m ->] _]. by split; [|left].
    + destruct Hts as (_ & Hwf' & Hv' & Hrem & _). by rewrite Hrem.
  - pose proof (findLabel_absent _ _ _ Hwf Hv Hf) as Hnot.
    pose proof (createLabel_wf n _ Hwf) as Hwfc.
    destruct (keep_createLabel n (w_keep w)) as [[m|l] k'] eqn:Hc; simpl in Hwfc.
    + destruct (createLabel_fail n _ m k' Hwf Hc) as [Hvc _]. simpl. rewrite Hvc, Hv. by split; [|right].
    + destruct (createLabel_ok n _ a l k' Hwf Hv Hnot Hc) as (Hvc & Hfc & _).
      pose proof (findLabel_name _ _ _ Hwfc Hfc) as Hname.
      pose proof (tag_and_sync_spec (set_keep k' (add_log (EvCreateLabel n) (add_log (EvFindLabel n) (add_log (EvGet id) w)))) id l (acc_define n a) Hwfc Hvc)
        as Hts. rewrite Hname in Hts. specialize (Hts Hn Hfc).
      destruct (tag_and_sync id l _) as [[e|[]] w'].
      * destruct Hts as (_ & Hwf' & Hv' & _ & Hexn).
        destruct (Hexn e eq_refl) as [[m ->] _]. by split; [|left].
      * destruct Hts as (_ & Hwf' & Hv' & Hrem & _). by rewrite Hrem.
Qed.
End AddLabelLaws.

Section AddLabelClaims.
Context {K : Type} `{KeepLaws K}.
Implicit Types (w : world K).

(** C1 (refinement): on a logged-in session, [add_label id n] implements
    [spec_add_label id n] on the session's view of the account.  A
    missing note raises the not-found error after the lookup alone.
    Otherwise the session stays well formed; on return the session and
    the service both hold the specified account; the only exceptions
    are the library's, after which the session holds either the
    specified account (the sync failed) or the original one (the label
    creation failed). *)
Theorem add_label_refines w id n a :
  keep_wf (w_keep w) -> keep_view (w_keep w) = Some a ->
  match spec_add_label id n a with
  | None => add_label id n w = (inl (ValueError (msg_not_found id)), add_log (EvGet id) w)
  | Some a' =>
      let '(r, w') := add_label id n w in
      keep_wf (w_keep w') /\
      match r with
      | inr _ => keep_view (w_keep w') = Some a' /\ keep_remote (w_keep w') = a'
      | inl (KeepError _) => keep_view (w_keep w') = Some a' \/ keep_view (w_keep w') = Some a
      | inl _ => False
      end
  end.
Proof.
  intros Hwf Hv. unfold spec_add_label.
  destruct (acc_has_note id a) eqn:Hn.
  - by apply add_label_sound.
  - by rewrite add_label_run, (get_absent _ _ _ Hwf Hv Hn).
Qed.

(** C5 (functional): when the label name already exists in the account,
    [add_label] does not create a label: its calls are the lookup of the
    note, the lookup of the label, the association and the sync, the
    account's label names are unchanged and the note carries the label. *)
Theorem add_label_existing_label w id n a :
  keep_wf (w_keep w) -> keep_view (w_keep w) = Some a ->
  acc_has_note id a = true -> n ∈ acc_labels a ->
  let w' := (add_label id n w).2 in
  w_log w' = w_log w ++ [EvGet id; EvFindLabel n; EvLabelsAdd id n; EvSync] /\
  (exists a', keep_view (w_keep w') = Some a' /\ acc_labels a' = acc_labels a /\
              a' = acc_tag id n a).
Proof.
  intros Hwf Hv Hn Hl w'. destruct (add_label_existing_run w id n a Hwf Hv Hn Hl) as [Hlog Hv'].
  split; [done|]. by eexists.
Qed.

(** C6 (functional): applying the same label to the same note a second
    time, after a successful first application, leaves the session's
    account as it was and still makes the sync call. *)
Theorem add_label_idempotent w id n a w1 :
  keep_wf (w_keep w) -> keep_view (w_keep w) = Some a -> acc_has_note id a = true ->
  add_label id n w = (inr (), w1) ->
  let w2 := (add_label id n w1).2 in
  keep_view (w_keep w2) = keep_view (w_keep w1) /\
  w_log w2 = w_log w1 ++ [EvGet id; EvFindLabel n; EvLabelsAdd id n; EvSync].
Proof.
  intros Hwf Hv Hn Hrun w2.
  pose proof (add_label_sound w id n a Hwf Hv Hn) as Hs. rewrite Hrun in Hs.
  destruct Hs as (Hwf1 & Hv1 & _).
  assert (acc_has_note id (acc_tag id n (acc_define n a)) = true) as Hn1
    by (by autorewrite with keep_rw).
  assert (n ∈ acc_labels (acc_tag id n (acc_define n a))) as Hl1
    by (rewrite acc_labels_tag; apply acc_define_in).
  destruct (add_label_existing_run w1 id n _ Hwf1 Hv1 Hn1 Hl1) as [Hlog Hv2].
  split; [|done]. unfold w2. rewrite Hv2, Hv1. by rewrite acc_tag_idem.
Qed.
End AddLabelClaims.

(** ** [main] and the process *)

Section Process.
Context {K : Type} `{!KeepClient K}.
Implicit Types (w : world K).

Lemma print_lines_run ls w :
  print_lines ls w = (inr (), mkWorld (w_env w) (w_keep w) (w_log w) (w_stdout w ++ ls) (w_stderr w)).
Proof.
  revert w. induction ls as [|l ls IH]; intros w; simpl.
  - destruct w; simpl. by rewrite app_nil_r.
  - rewrite step_print, IH. simpl. by rewrite <- app_assoc.
Qed.

Lemma process_parsed argv0 argv nid lname w :
  parse_args argv = ArgsOk (mkNamespace (VStr nid) (VStr lname)) ->
  process argv0 argv w = Some (let '(r, w') := main_body nid lname w in finish r w').
Proof. intros Hp. unfold process, main, parse_phase. by rewrite Hp. Qed.

(** The script's own code raises no [SystemExit]. *)
Lemma main_body_no_exit nid lname w e w' :
  main_body nid lname w = (inl e, w') -> forall c, e <> SystemExit c.
Proof.
  unfold main_body. rewrite run_bind. unfold login. run_keep.
  destruct (_ || _); [by intros [= <-]|]. run_keep.
  destruct (keep_login _ _ _) as [[m|[]] k']; simpl; [by intros [= <-]| |by intros [= <-]].
  run. fold (add_label (K:=K) nid lname). rewrite run_bind, add_label_run.
  destruct (keep_get _ _); [|by intros [= <-]]. simpl.
  assert (forall r l w0, match tag_and_sync (K:=K) r l w0 with
                 | (inl e, w') => (inl e, w') | (inr x, w') => print (msg_added lname nid) w' end
                 = (inl e, w') -> forall c, e <> SystemExit c) as Hts.
  { intros r l w0. rewrite tag_and_sync_run. simpl.
    by destruct (keep_sync _) as [[m|[]] k'']; [intros [= <-]|]. }
  destruct (keep_findLabel _ _); [apply Hts|].
  destruct (keep_createLabel _ _) as [[m|l] k'']; [by intros [= <-]|apply Hts].
Qed.

(** C8 (error): the exit status of the process.  A command line the
    parser accepts gives 0 or 1 (every exception of the script and of
    the client library exits with 1); the help gives 0; a parser error
    gives 2. *)
Theorem process_exit_status argv0 argv w code w' :
  process argv0 argv w = Some (code, w') ->
  match parse_args argv with
  | ArgsOk ns =>
      match str_values ns with
      | Some (nid, lname) => (code = 0 <-> (main_body nid lname w).1 = inr ()) /\ (code = 0 \/ code = 1)
      | None => False
      end
  | ArgsHelp => code = 0
  | ArgsError _ => code = 2
  end%nat.
Proof.
  destruct (parse_args argv) as [ns| |e] eqn:Hp.
  - destruct ns as [[nid|xs] [lname|ys]]; cbn [str_values ns_note ns_label];
      [|unfold process, main, parse_phase; by rewrite Hp..].
    rewrite (process_parsed _ _ nid lname) by done. intros [= Hf].
    destruct (main_body nid lname w) as [[e|[]] w1] eqn:Hm; simpl in Hf.
    + destruct e as [| | |c]; try (injection Hf as <- _; split; [split; [done|discriminate]|by right]).
      by destruct (main_body_no_exit nid lname w (SystemExit c) w1 Hm c).
    + injection Hf as <- _. split; [done|by left].
  - unfold process, main, parse_phase. rewrite Hp. simpl.
    by intros [= <- _].
  - unfold process, main, parse_phase. rewrite Hp. simpl. by intros [= <- _].
Qed.
End Process.

(** ** The order of the external calls *)

Section Order.
Context {K : Type} `{KeepLaws K}.
Implicit Types (w : world K).

Lemma login_steps w :
  keep_wf (w_keep w) ->
  let e := default EmptyString (w_env w !! "KEEP_EMAIL") in
  let p := default EmptyString (w_env w !! "KEEP_PASSWORD") in
  let '(r, w') := login w in
  exists l, w_log w' = w_log w ++ l /\ l `prefix_of` login_calls e p /\ w_env w' = w_env w /\
    (r = inr () -> l = login_calls e p /\ keep_wf (w_keep w') /\
                   keep_view (w_keep w') = Some (keep_remote (w_keep w))).
Proof.
  intros Hwf e p. rewrite login_run. fold e p.
  destruct (_ || _).
  { exists [EvGetenv "KEEP_EMAIL"; EvGetenv "KEEP_PASSWORD"]. simpl. rewrite <- app_assoc.
    split_and!; [done|by eexists|done|discriminate]. }
  pose proof (login_wf e p _ (new_wf _ Hwf)) as Hwf'.
  destruct (keep_login e p (keep_new (w_keep w))) as [[m|[]] k'] eqn:Hl; simpl in Hwf';
    exists (login_calls e p); simpl; (split; [by rewrite <- !app_assoc|]);
    split_and!; try done.
  intros _. split_and!; [done|done|]. rewrite <- (new_remote (w_keep w)).
  by destruct (login_ok e p _ k' (new_wf _ Hwf) Hl).
Qed.

Lemma add_label_steps w id n a :
  keep_wf (w_keep w) -> keep_view (w_keep w) = Some a ->
  let '(r, w') := add_label id n w in
  exists l created, w_log w' = w_log w ++ l /\ l `prefix_of` add_label_calls id n created /\
    (r = inr () -> l = add_label_calls id n created).
Proof.
  intros Hwf Hv. rewrite add_label_run.
  destruct (acc_has_note id a) eqn:Hn; [|rewrite (get_absent _ _ _ Hwf Hv Hn)].
  2:{ exists [EvGet id], false. split_and!; [done|by eexists|discriminate]. }
  rewrite (get_present _ _ _ Hwf Hv Hn).
  destruct (keep_findLabel n (w_keep w)) as [l|] eqn:Hf.
  - pose proof (findLabel_name _ _ _ Hwf Hf) as Hname.
    pose proof (tag_and_sync_spec (add_log (EvFindLabel n) (add_log (EvGet id) w)) id l a Hwf Hv Hn)
      as Hts. rewrite Hname in Hts. specialize (Hts Hf).
    destruct (tag_and_sync id l _) as [r w'].
    destruct Hts as (Hlog & _). exists (add_label_calls id n false), false.
    rewrite Hlog; simpl. rewrite <- !app_assoc. by split_and!.
  - pose proof (findLabel_absent _ _ _ Hwf Hv Hf) as Hnot.
    destruct (keep_createLabel n (w_keep w)) as [[m|l] k'] eqn:Hc.
    + exists [EvGet id; EvFindLabel n; EvCreateLabel n], true. simpl. rewrite <- !app_assoc.
      split_and!; [done|by eexists|discriminate].
    + pose proof (createLabel_wf n _ Hwf) as Hwfc. rewrite Hc in Hwfc.
      destruct (createLabel_ok n _ a l k' Hwf Hv Hnot Hc) as (Hvc & Hfc & _).
      pose proof (findLabel_name _ _ _ Hwfc Hfc) as Hname.
      pose proof (tag_and_sync_spec (set_keep k' (add_log (EvCreateLabel n) (add_log (EvFindLabel n) (add_log (EvGet id) w)))) id l (acc_define n a) Hwfc Hvc)
        as Hts. rewrite Hname in Hts. specialize (Hts Hn Hfc).
      destruct (tag_and_sync id l _) as [r w'].
      destruct Hts as (Hlog & _). exists (add_label_calls id n true), true.
      rewrite Hlog; simpl. rewrite <- !app_assoc. by split_and!.
Qed.
(** The calls of a run of lines 50-52. *)
Lemma main_body_log nid lname w :
  keep_wf (w_keep w) ->
  let e := default EmptyString (w_env w !! "KEEP_EMAIL") in
  let p := default EmptyString (w_env w !! "KEEP_PASSWORD") in
  let '(r, w') := main_body nid lname w in
  exists l created, w_log w' = w_log w ++ l /\
    l `prefix_of` login_calls e p ++ add_label_calls nid lname created /\
    (r = inr () -> l = login_calls e p ++ add_label_calls nid lname created).
Proof.
  intros Hwf e p. unfold main_body. rewrite run_bind.
  pose proof (login_steps w Hwf) as Hl. fold e p in Hl.
  destruct (login w) as [[x|[]] w1]; destruct Hl as (l1 & Hlog1 & Hpre1 & _ & Hok1).
  { exists l1, false. split_and!; [done|by apply prefix_app_r|discriminate]. }
  destruct (Hok1 eq_refl) as (-> & Hwf1 & Hv1). rewrite run_bind.
  pose proof (add_label_steps w1 nid lname _ Hwf1 Hv1) as Hl2.
  destruct (add_label _ _ w1) as [[y|[]] w2]; destruct Hl2 as (l2 & c & Hlog2 & Hpre2 & Hok2).
  - exists (login_calls e p ++ l2), c. rewrite Hlog2, Hlog1, app_assoc.
    split_and!; [done|by apply prefix_app|discriminate].
  - exists (login_calls e p ++ l2), c. cbn [w_log add_stdout].
    rewrite Hlog2, Hlog1, app_assoc. rewrite (Hok2 eq_refl). by split_and!.
Qed.
End Order.

Section AfterLogin.
Context {K : Type} `{KeepLaws K}.
Implicit Types (w : world K).

(** The process once the command line is parsed and the credentials are
    accepted: what is left is [add_label] and the confirmation, on a
    world whose session holds the account the service stores. *)
Lemma process_after_login argv0 argv nid lname w e p k' :
  parse_args argv = ArgsOk (mkNamespace (VStr nid) (VStr lname)) -> keep_wf (w_keep w) ->
  w_env w !! "KEEP_EMAIL" = Some e -> e <> EmptyString ->
  w_env w !! "KEEP_PASSWORD" = Some p -> p <> EmptyString ->
  keep_login e p (keep_new (w_keep w)) = (inr true, k') ->
  exists w1, w_keep w1 = k' /\ keep_wf (w_keep w1) /\ keep_view (w_keep w1) = Some (keep_remote (w_keep w)) /\
    keep_remote (w_keep w1) = keep_remote (w_keep w) /\
    w_log w1 = w_log w ++ login_calls e p /\ w_stdout w1 = w_stdout w /\ w_stderr w1 = w_stderr w /\
    process argv0 argv w =
      Some (let '(r, w2) := (add_label nid lname;;
                             print (msg_added lname nid)) w1 in finish r w2).
Proof.
  intros Hp Hwf He Hne Hpw Hpne Hl. rewrite (process_parsed _ _ nid lname) by done.
  unfold main_body. rewrite run_bind, login_run. simpl. rewrite He, Hpw.
  apply py_truthy_Some in Hne, Hpne. rewrite Hne, Hpne. simpl. rewrite Hl.
  pose proof (login_wf e p _ (new_wf _ Hwf)) as Hwf1. rewrite Hl in Hwf1. simpl in Hwf1.
  destruct (login_ok e p _ k' (new_wf _ Hwf) Hl) as [Hv1 Hr1]. rewrite new_remote in Hv1, Hr1.
  exists (set_keep k' (add_log (EvLogin e p)
            (set_keep (keep_new (w_keep w)) (add_log EvKeepNew (creds_logged w))))).
  split_and!; [done|exact Hwf1|exact Hv1|exact Hr1| |done|done|reflexivity].
  simpl. by rewrite <- !app_assoc.
Qed.

(** [add_label] whose sync call failed: the session holds the specified
    account, the service still holds the original one. *)
Lemma add_label_sync_failed w id n a e w' :
  keep_wf (w_keep w) -> keep_view (w_keep w) = Some a -> acc_has_note id a = true ->
  add_label id n w = (inl e, w') -> last (w_log w') = Some EvSync ->
  keep_view (w_keep w') = Some (acc_tag id n (acc_define n a)) /\
  keep_remote (w_keep w') = keep_remote (w_keep w).
Proof.
  intros Hwf Hv Hn. rewrite add_label_run, (get_present _ _ _ Hwf Hv Hn).
  destruct (keep_findLabel n (w_keep w)) as [l|] eqn:Hf.
  - assert (n ∈ acc_labels a) as Hin.
    { destruct (proj1 (findLabel_defined n _ Hwf) (ex_intro _ l Hf)) as (a0 & Hv0 & Hin0).
      congruence. }
    pose proof (findLabel_name _ _ _ Hwf Hf) as Hname.
    pose proof (tag_and_sync_spec (add_log (EvFindLabel n) (add_log (EvGet id) w)) id l a Hwf Hv Hn)
      as Hts. rewrite Hname in Hts. specialize (Hts Hf). rewrite acc_define_present by done.
    destruct (tag_and_sync id l _) as [[e'|[]] w2]; [|done]. intros [= <- <-] _.
    destruct Hts as (_ & _ & Hv' & _ & Hexn). destruct (Hexn e' eq_refl) as [_ Hrem]. by split.
  - pose proof (findLabel_absent _ _ _ Hwf Hv Hf) as Hnot.
    pose proof (createLabel_wf n _ Hwf) as Hwfc.
    destruct (keep_createLabel n (w_keep w)) as [[m|l] k'] eqn:Hc; simpl in Hwfc.
    + intros [= <- <-]. simpl. by rewrite last_snoc.
    + destruct (createLabel_ok n _ a l k' Hwf Hv Hnot Hc) as (Hvc & Hfc & Hrc).
      pose proof (findLabel_name _ _ _ Hwfc Hfc) as Hname.
      pose proof (tag_and_sync_spec (set_keep k' (add_log (EvCreateLabel n) (add_log (EvFindLabel n) (add_log (EvGet id) w)))) id l (acc_define n a) Hwfc Hvc)
        as Hts. rewrite Hname in Hts. specialize (Hts Hn Hfc).
      destruct (tag_and_sync id l _) as [[e'|[]] w2]; [|done]. intros [= <- <-] _.
      destruct Hts as (_ & _ & Hv' & _ & Hexn). destruct (Hexn e' eq_refl) as [_ Hrem].
      split; [done|]. rewrite Hrem. simpl. done.
Qed.
End AfterLogin.

Section MainClaims.
Context {K : Type} `{KeepLaws K}.
Implicit Types (w : world K).

(** C7 (safety): every run of lines 50-52 makes its external calls in
    the order of the source and stops at the first failure: the calls
    made are a prefix of the credentials reads, [Keep()], [login],
    [get], [findLabel], possibly [createLabel], [labels.add] and
    [sync]; a run that returns made all of them. *)
Theorem main_body_call_order nid lname w :
  keep_wf (w_keep w) ->
  let e := default EmptyString (w_env w !! "KEEP_EMAIL") in
  let p := default EmptyString (w_env w !! "KEEP_PASSWORD") in
  let '(r, w') := main_body nid lname w in
  exists l created, w_log w' = w_log w ++ l /\
    l `prefix_of` login_calls e p ++ add_label_calls nid lname created /\
    (r = inr () -> l = login_calls e p ++ add_label_calls nid lname created).
Proof. apply main_body_log. Qed.

(** C4 (error): end to end, when the command line parses, the
    credentials are accepted and the note is not in the account, the
    process exits with status 1 and the not-found error on standard
    error; it made no label creation and no sync call, and printed
    nothing. *)
Theorem process_note_missing argv0 argv nid lname w e p k' :
  parse_args argv = ArgsOk (mkNamespace (VStr nid) (VStr lname)) -> keep_wf (w_keep w) ->
  w_env w !! "KEEP_EMAIL" = Some e -> e <> EmptyString ->
  w_env w !! "KEEP_PASSWORD" = Some p -> p <> EmptyString ->
  keep_login e p (keep_new (w_keep w)) = (inr true, k') ->
  acc_has_note nid (keep_remote (w_keep w)) = false ->
  exists w', process argv0 argv w = Some (1%nat, w') /\
    w_log w' = w_log w ++ login_calls e p ++ [EvGet nid] /\
    w_stdout w' = w_stdout w /\
    w_stderr w' = w_stderr w ++ ["ValueError: " +:+ msg_not_found nid].
Proof.
  intros Hp Hwf He Hne Hpw Hpne Hl Hn.
  destruct (process_after_login argv0 argv nid lname w e p k' Hp Hwf He Hne Hpw Hpne Hl)
    as (w1 & _ & Hwf1 & Hv1 & _ & Hlog1 & Hout1 & Herr1 & ->).
  rewrite run_bind, add_label_run, (get_absent _ _ _ Hwf1 Hv1 Hn). simpl.
  eexists. split; [reflexivity|]. simpl. rewrite Hlog1, Hout1, Herr1. by rewrite <- !app_assoc.
Qed.

(** C9 (error): a command line the parser rejects, or [-h], ends the
    process before any other effect: no environment read, no client,
    no network call.  The help goes to standard output with status 0;
    an error writes the usage and the message to standard error with
    status 2. *)
Theorem process_parse_failure argv0 argv w :
  let prog := basename argv0 in
  match parse_args argv with
  | ArgsHelp =>
      process argv0 argv w =
      Some (0%nat, mkWorld (w_env w) (w_keep w) (w_log w) (w_stdout w ++ help_lines prog) (w_stderr w))
  | ArgsError err =>
      process argv0 argv w =
      Some (2%nat, mkWorld (w_env w) (w_keep w) (w_log w) (w_stdout w)
                     (w_stderr w ++ [usage_line prog; prog +:+ ": error: " +:+ arg_error_msg err]))
  | _ => True
  end.
Proof.
  intros prog. unfold process, main, parse_phase.
  destruct (parse_args argv); try done; simpl; fold prog.
  - destruct w. cbv [add_stdout]. simpl. by rewrite <- ?app_assoc.
  - destruct w. cbv [add_stderr]. simpl. by rewrite <- ?app_assoc.
Qed.

(** C25 (refinement): the parser and the script composed.  On a command
    line written as [--note]/[--label] arguments in any order, form and
    number, the process runs lines 50-52 with the last note and the last
    label given when both are strings; when an option is missing it exits
    with status 2 and the required-arguments error before any other
    effect. *)
Theorem process_render argv0 args w :
  Forall arg_ok args ->
  process argv0 (render args) w =
  match last_value OptNote args, last_value OptLabel args with
  | Some (VStr nid), Some (VStr lname) => Some (let '(r, w') := main_body nid lname w in finish r w')
  | Some _, Some _ => None
  | n, l =>
      Some (2%nat, mkWorld (w_env w) (w_keep w) (w_log w) (w_stdout w)
             (w_stderr w ++ [usage_line (basename argv0);
                             basename argv0 +:+ ": error: " +:+
                             arg_error_msg (ErrRequired (match n with Some _ => [] | None => ["--note"] end ++
                                                         match l with Some _ => [] | None => ["--label"] end))]))
  end.
Proof.
  intros Hok. unfold process, main, parse_phase. rewrite parse_args_render by done. unfold spec_parse.
  destruct (last_value OptNote args) as [[nid|xs]|], (last_value OptLabel args) as [[lname|ys]|];
    try done; destruct w; simpl; unfold add_stderr; simpl; by rewrite <- ?app_assoc.
Qed.
End MainClaims.

Section Invariant.
Context {K : Type} `{KeepLaws K}.
Implicit Types (w : world K).

Lemma add_label_wf w id n :
  keep_wf (w_keep w) -> keep_wf (w_keep (add_label id n w).2).
Proof.
  intros Hwf. destruct (keep_view (w_keep w)) as [a|] eqn:Hv.
  - destruct (acc_has_note id a) eqn:Hn.
    + pose proof (add_label_sound w id n a Hwf Hv Hn) as Hs.
      destruct (add_label id n w) as [r w']. by destruct Hs.
    + by rewrite add_label_run, (get_absent _ _ _ Hwf Hv Hn).
  - rewrite add_label_run, (get_spec id _ Hwf), Hv. done.
Qed.

Lemma login_wf_world w : keep_wf (w_keep w) -> keep_wf (w_keep (login w).2).
Proof.
  intros Hwf. rewrite login_run. destruct (_ || _); [done|].
  pose proof (login_wf (default EmptyString (w_env w !! "KEEP_EMAIL"))
                (default EmptyString (w_env w !! "KEEP_PASSWORD")) _ (new_wf _ Hwf)) as Hl.
  by destruct (keep_login _ _ _) as [[m|[]] k'].
Qed.

(** C13 (invariant): every run of lines 50-52, whatever its outcome,
    leaves the client well formed. *)
Theorem main_body_preserves_wf nid lname w :
  keep_wf (w_keep w) -> keep_wf (w_keep (main_body nid lname w).2).
Proof.
  intros Hwf. unfold main_body. rewrite run_bind.
  pose proof (login_wf_world w Hwf) as Hwf1.
  destruct (login w) as [[x|[]] w1]; [done|]. rewrite run_bind.
  pose proof (add_label_wf w1 nid lname Hwf1) as Hwf2.
  by destruct (add_label _ _ w1) as [[y|[]] w2].
Qed.
End Invariant.

Section Success.
Context {K : Type} `{KeepLaws K}.
Implicit Types (w : world K).

(** [add_label] writes nothing on standard output. *)
Lemma add_label_stdout w id n : w_stdout (add_label id n w).2 = w_stdout w.
Proof.
  rewrite add_label_run. destruct (keep_get id (w_keep w)); [|done].
  assert (forall r l w0, w_stdout (tag_and_sync (K:=K) r l w0).2 = w_stdout w0) as Hts.
  { intros r l w0. rewrite tag_and_sync_run. by destruct (keep_sync _) as [[]]. }
  destruct (keep_findLabel n (w_keep w)); [by rewrite Hts|].
  destruct (keep_createLabel n (w_keep w)) as [[m|l] k']; [done|by rewrite Hts].
Qed.

(** C14 (refinement): end to end.  When the command line parses, the
    credentials are accepted and the note is in the account, a process
    that exits with status 0 has printed exactly the confirmation line
    and the service stores the specified account (the label exists and
    the note carries it); a process that does not exit with 0 exits
    with 1 and prints nothing. *)
Theorem process_success argv0 argv nid lname w e p k' a' code w' :
  parse_args argv = ArgsOk (mkNamespace (VStr nid) (VStr lname)) -> keep_wf (w_keep w) ->
  w_env w !! "KEEP_EMAIL" = Some e -> e <> EmptyString ->
  w_env w !! "KEEP_PASSWORD" = Some p -> p <> EmptyString ->
  keep_login e p (keep_new (w_keep w)) = (inr true, k') ->
  spec_add_label nid lname (keep_remote (w_keep w)) = Some a' ->
  process argv0 argv w = Some (code, w') ->
  (code = 0%nat /\ keep_remote (w_keep w') = a' /\
     w_stdout w' = w_stdout w ++ [msg_added lname nid]) \/
  (code = 1%nat /\ w_stdout w' = w_stdout w).
Proof.
  intros Hp Hwf He Hne Hpw Hpne Hl Hspec Hproc.
  destruct (process_after_login argv0 argv nid lname w e p k' Hp Hwf He Hne Hpw Hpne Hl)
    as (w1 & _ & Hwf1 & Hv1 & _ & _ & Hout1 & _ & Hpr).
  rewrite Hpr, run_bind in Hproc.
  unfold spec_add_label in Hspec. destruct (acc_has_note _ _) eqn:Hn; [|done].
  injection Hspec as <-.
  pose proof (add_label_sound w1 nid lname _ Hwf1 Hv1 Hn) as Hs.
  pose proof (add_label_stdout w1 nid lname) as Hout.
  destruct (add_label _ _ w1) as [[x|[]] w2]; destruct Hs as [_ Hs]; simpl in Hout.
  - destruct x; try done. injection Hproc as <- <-. right. split; [done|]. simpl. congruence.
  - injection Hproc as <- <-. left. destruct Hs as [_ Hrem]. split_and!; [done|done|].
    cbn [w_stdout add_stdout]. by rewrite Hout, Hout1.
Qed.

(** C15 (error): the partial failure of spec section 4.2.  When the
    command line parses, the credentials are accepted and the note
    exists, a process that fails after its sync call exits with 1 and
    prints nothing, while the session holds the label on the note and the
    service still holds the original account: the program has no way to
    report the partially applied change. *)
Theorem process_sync_failure argv0 argv nid lname w e p k' code w' :
  parse_args argv = ArgsOk (mkNamespace (VStr nid) (VStr lname)) -> keep_wf (w_keep w) ->
  w_env w !! "KEEP_EMAIL" = Some e -> e <> EmptyString ->
  w_env w !! "KEEP_PASSWORD" = Some p -> p <> EmptyString ->
  keep_login e p (keep_new (w_keep w)) = (inr true, k') ->
  acc_has_note nid (keep_remote (w_keep w)) = true ->
  process argv0 argv w = Some (code, w') -> code <> 0%nat -> last (w_log w') = Some EvSync ->
  code = 1%nat /\ w_stdout w' = w_stdout w /\
  keep_view (w_keep w') =
    Some (acc_tag nid lname (acc_define lname (keep_remote (w_keep w)))) /\
  keep_remote (w_keep w') = keep_remote (w_keep w).
Proof.
  intros Hp Hwf He Hne Hpw Hpne Hl Hn Hproc Hcode Hlast.
  destruct (process_after_login argv0 argv nid lname w e p k' Hp Hwf He Hne Hpw Hpne Hl)
    as (w1 & _ & Hwf1 & Hv1 & Hr1 & _ & Hout1 & _ & Hpr).
  rewrite Hpr, run_bind in Hproc.
  pose proof (add_label_sound w1 nid lname _ Hwf1 Hv1 Hn) as Hs.
  pose proof (add_label_stdout w1 nid lname) as Hout.
  pose proof (add_label_sync_failed w1 nid lname (keep_remote (w_keep w))) as Hsf.
  destruct (add_label _ _ w1) as [[x|[]] w2]; destruct Hs as [_ Hs]; simpl in Hout.
  - destruct x; try done. injection Hproc as <- <-. simpl in Hlast.
    destruct (Hsf _ _ Hwf1 Hv1 Hn eq_refl Hlast) as [Hv2 Hr2].
    split_and!; [done|simpl; congruence|done|simpl; congruence].
  - injection Hproc as <- <-. done.
Qed.
End Success.
