(* ===== verification/Runs.v ===== *)
(** * Runs: properties of whole runs of the process

    A run is [process argv0 argv w]: the parse of the command line, lines
    50-52 ([login], [add_label], the confirmation) and the interpreter's
    exit status.  This file bounds what a run does (one client, one login
    call, one sync call, at most nine recorded calls: spec sections 4.1
    and 5) and shows that a run that finds its note reaches the sync call
    unless the creation of the label raises. *)

From stdpp Require Import base strings gmap list.
From S2P Require Import Prelude Effects KeepApi Argparse Script.

(** How many events of [l] satisfy [P]. *)
Definition count_events (P : event -> bool) (l : list event) : nat :=
  length (List.filter P l).

Definition is_new (e : event) : bool :=
  match e with EvKeepNew => true | _ => false end.

Lemma count_events_app P l1 l2 :
  count_events P (l1 ++ l2) = count_events P l1 + count_events P l2.
Proof. unfold count_events. by rewrite List.filter_app, length_app. Qed.

Lemma count_events_prefix P l1 l2 :
  l1 `prefix_of` l2 -> count_events P l1 <= count_events P l2.
Proof. intros [k ->]. rewrite count_events_app. lia. Qed.

(** The calls of a complete run: one client, a login and a sync call. *)
Lemma complete_run_counts e p nid lname created :
  let l := login_calls e p ++ add_label_calls nid lname created in
  length l <= 9 /\ count_events is_new l = 1 /\ count_events is_network l = 2 /\
  count_events is_sync l = 1.
Proof. destruct created; cbn; split_and!; lia. Qed.

Section Runs.
Context {K : Type} `{KeepLaws K}.
Implicit Types (w : world K).

Lemma finish_log (r : exn + unit) w : w_log (finish r w).2 = w_log w.
Proof. by destruct r as [[]|]. Qed.

(** The calls of any run are a prefix of the calls of a complete one. *)
Lemma process_log argv0 argv w code w' :
  keep_wf (w_keep w) -> process argv0 argv w = Some (code, w') ->
  exists l e p nid lname created, w_log w' = w_log w ++ l /\
    l `prefix_of` login_calls e p ++ add_label_calls nid lname created.
Proof.
  intros Hwf. destruct (parse_args argv) as [ns| |err] eqn:Hp.
  - destruct ns as [[nid|xs] [lname|ys]];
      [|unfold process, main, parse_phase; by rewrite Hp..].
    rewrite (process_parsed _ _ nid lname) by done. intros [= Hf].
    pose proof (main_body_log nid lname w Hwf) as Hl. cbv zeta in Hl.
    destruct (main_body nid lname w) as [r w1].
    destruct Hl as (l & created & Hlog & Hpre & _).
    exists l, (default EmptyString (w_env w !! "KEEP_EMAIL")),
      (default EmptyString (w_env w !! "KEEP_PASSWORD")), nid, lname, created. split; [|exact Hpre].
    by rewrite <- Hlog, <- (finish_log r w1), Hf.
  - unfold process, main, parse_phase. rewrite Hp. destruct w. simpl. intros [= <- <-].
    exists [], EmptyString, EmptyString, EmptyString, EmptyString, false.
    split; [by rewrite app_nil_r|apply prefix_nil].
  - unfold process, main, parse_phase. rewrite Hp. destruct w. simpl. intros [= <- <-].
    exists [], EmptyString, EmptyString, EmptyString, EmptyString, false.
    split; [by rewrite app_nil_r|apply prefix_nil].
Qed.

(** C26 (bounds): a run creates at most one client ([gkeepapi.Keep()],
    spec section 5: one session per invocation), makes at most two
    network round trips (one [login], one [sync]) of which at most one
    [sync], and at most nine calls in all. *)
Theorem process_call_bounds argv0 argv w code w' :
  keep_wf (w_keep w) -> process argv0 argv w = Some (code, w') ->
  exists l, w_log w' = w_log w ++ l /\ length l <= 9 /\
    count_events is_new l <= 1 /\ count_events is_network l <= 2 /\ count_events is_sync l <= 1.
Proof.
  intros Hwf Hp. destruct (process_log _ _ _ _ _ Hwf Hp) as (l & e & p & nid & lname & created & Hlog & Hpre).
  exists l. split; [done|].
  pose proof (prefix_length _ _ Hpre) as Hlen.
  pose proof (count_events_prefix is_new _ _ Hpre) as Hn.
  pose proof (count_events_prefix is_network _ _ Hpre) as Hnet.
  pose proof (count_events_prefix is_sync _ _ Hpre) as Hs.
  destruct (complete_run_counts e p nid lname created) as (Hl9 & Hn1 & Hnet2 & Hs1). lia.
Qed.
(** [add_label] on a note of the session ends with the sync call, or with
    a label creation that raised. *)
Lemma add_label_last w id n a :
  keep_wf (w_keep w) -> keep_view (w_keep w) = Some a -> acc_has_note id a = true ->
  last (w_log (add_label id n w).2) = Some EvSync \/
  (last (w_log (add_label id n w).2) = Some (EvCreateLabel n) /\
   exists m, (add_label id n w).1 = inl (KeepError m)).
Proof.
  intros Hwf Hv Hn. rewrite add_label_run, (get_present _ _ _ Hwf Hv Hn).
  assert (Hts : forall l w0, last (w_log (tag_and_sync (K:=K) id l w0).2) = Some EvSync).
  { intros l w0. rewrite tag_and_sync_run. by destruct (keep_sync _) as [[m|[]] k'']; simpl; rewrite last_snoc. }
  destruct (keep_findLabel n (w_keep w)) as [l|]; [left; apply Hts|].
  destruct (keep_createLabel n (w_keep w)) as [[m|l] k']; [right|left; apply Hts].
  split; [simpl; by rewrite last_snoc|by exists m].
Qed.

(** C27 (liveness): once the command line is accepted, the credentials
    are accepted and the note exists, the run reaches the sync call: its
    last call is [keep.sync()], unless the creation of the label raised,
    in which case the run exits with status 1 right after it. *)
Theorem process_reaches_sync argv0 argv nid lname w e p k' code w' :
  parse_args argv = ArgsOk (mkNamespace (VStr nid) (VStr lname)) -> keep_wf (w_keep w) ->
  w_env w !! "KEEP_EMAIL" = Some e -> e <> EmptyString ->
  w_env w !! "KEEP_PASSWORD" = Some p -> p <> EmptyString ->
  keep_login e p (keep_new (w_keep w)) = (inr true, k') ->
  acc_has_note nid (keep_remote (w_keep w)) = true ->
  process argv0 argv w = Some (code, w') ->
  last (w_log w') = Some EvSync \/ (last (w_log w') = Some (EvCreateLabel lname) /\ code = 1%nat).
Proof.
  intros Hp Hwf He Hne Hpw Hpne Hl Hn.
  destruct (process_after_login argv0 argv nid lname w e p k' Hp Hwf He Hne Hpw Hpne Hl)
    as (w1 & _ & Hwf1 & Hv1 & _ & _ & _ & _ & ->).
  rewrite run_bind. pose proof (add_label_last w1 nid lname _ Hwf1 Hv1 Hn) as Hlast.
  destruct (add_label nid lname w1) as [[x|[]] w2]; cbn [fst snd] in Hlast; intros [= Hf].
  - assert (Hw : w_log w' = w_log w2) by (destruct x; simpl in Hf; by injection Hf as _ <-).
    rewrite Hw. destruct Hlast as [Hs|[Hc [m [= ->]]]]; [by left|right].
    simpl in Hf. injection Hf as <- _. done.
  - destruct Hlast as [Hs|[_ [m [=]]]]. left. by subst w'.
Qed.
End Runs.
