(* ===== verification/Docstring.v ===== *)
(** * Docstring: the module docstring of [google_keep_tags.py] as a specification

    Lines 2-14 of the source tell the user how to run the script and what
    it does.  Three of their statements are about the program:

    - lines 7-8: the credentials are read from the environment variables
      [KEEP_EMAIL] and [KEEP_PASSWORD] ([doc_env_vars]);
    - line 10: the script is run as
      [python google_keep_tags.py --note NOTE_ID --label LABEL]
      ([doc_prog], [doc_usage]);
    - lines 12-13: it logs in to Google Keep, finds or creates the given
      label, then applies it to the specified note ([doc_steps], over the
      calls of [Effects.event]).

    The theorems show that the documented invocation is accepted and runs
    lines 50-52 with its two values, and that a run of it that succeeds
    reads exactly the documented variables and makes the documented calls
    in the documented order, between which the code also looks the note up
    and after which it synchronises, two calls the docstring does not
    mention.  Lines 5-6 (installing [gkeepapi]) are not about the
    program. *)

From stdpp Require Import base strings gmap list.
From S2P Require Import Prelude Effects KeepApi Argparse Script.

(** Lines 7-8. *)
Definition doc_env_vars : list string := ["KEEP_EMAIL"; "KEEP_PASSWORD"].

(** Line 10: [sys.argv] of the documented invocation. *)
Definition doc_prog : string := "google_keep_tags.py".

Definition doc_usage (note_id label : string) : list string :=
  ["--note"; note_id; "--label"; label].

(** Lines 12-13: log in, find or create the label, apply it to the note. *)
Definition doc_steps (email password note_id label : string) (created : bool) : list event :=
  [EvLogin email password; EvFindLabel label] ++
  (if created then [EvCreateLabel label] else []) ++ [EvLabelsAdd note_id label].

(** The documented invocation as options of [Argparse]. *)
Lemma doc_usage_render note_id label :
  doc_usage note_id label = render [mkOptArg OptNote Separate note_id; mkOptArg OptLabel Separate label].
Proof. done. Qed.

Lemma doc_usage_parse note_id label :
  classify note_id = TPos -> classify label = TPos ->
  parse_args (doc_usage note_id label) = ArgsOk (mkNamespace (VStr note_id) (VStr label)).
Proof.
  intros Hn Hl. rewrite doc_usage_render, parse_args_render.
  - unfold spec_parse, last_value. simpl. by rewrite !get_values_str by (by apply classify_pos_not_sep).
  - repeat constructor; done.
Qed.

Section Doc.
Context {K : Type} `{KeepLaws K}.
Implicit Types (w : world K).

(** C28 (functional): the invocation of line 10 is accepted for every
    note id and label that read as values, and runs lines 50-52 with them. *)
Theorem doc_usage_runs note_id label w :
  classify note_id = TPos -> classify label = TPos ->
  process doc_prog (doc_usage note_id label) w =
    Some (let '(r, w') := main_body note_id label w in finish r w').
Proof. intros Hn Hl. apply process_parsed. by apply doc_usage_parse. Qed.

(** C29 (refinement): a run of the documented invocation that exits with
    status 0 reads the variables of lines 7-8, in that order, and makes the
    calls of lines 12-13 in their order; the code also looks the note up
    before finding the label and synchronises at the end, which the
    docstring leaves out. *)
Theorem doc_steps_in_run note_id label w w' :
  classify note_id = TPos -> classify label = TPos -> keep_wf (w_keep w) ->
  process doc_prog (doc_usage note_id label) w = Some (0%nat, w') ->
  let e := default EmptyString (w_env w !! "KEEP_EMAIL") in
  let p := default EmptyString (w_env w !! "KEEP_PASSWORD") in
  exists l created, w_log w' = w_log w ++ l /\
    (EvGetenv <$> doc_env_vars) `prefix_of` l /\
    doc_steps e p note_id label created `sublist_of` l /\
    EvGet note_id ∈ l /\ last l = Some EvSync.
Proof.
  intros Hn Hl Hwf Hp e p. rewrite (process_parsed _ _ note_id label) in Hp by (by apply doc_usage_parse).
  pose proof (main_body_log note_id label w Hwf) as Hlog. fold e p in Hlog.
  destruct (main_body note_id label w) as [r w1] eqn:Hm.
  destruct Hlog as (l & created & Hlog & _ & Hok).
  assert (r = inr ()) as ->.
  { destruct r as [x|[]]; [|done]. destruct x as [| | |c]; try (by injection Hp).
    by destruct (main_body_no_exit _ _ _ _ _ Hm c). }
  injection Hp as <-. rewrite (Hok eq_refl) in Hlog.
  exists (login_calls e p ++ add_label_calls note_id label created), created.
  split_and!; [done|by eexists| | |].
  - destruct created; cbn;
      repeat first [apply sublist_nil_l | apply sublist_skip | apply sublist_cons].
  - set_solver.
  - by destruct created.
Qed.
End Doc.
