(* ===== verification/KeepModel.v ===== *)
(** * KeepModel: an executable client for the [KeepClient] interface

    [gkeepapi] is not part of the repository; this file models the
    collaborator the spec describes (sections 3 and 6) so that the
    script's theorems have a concrete instance and the scenarios of the
    spec can be run.  The state holds the account's credentials, whether
    the service is reachable and whether it accepts changes, the account
    as the service stores it, the
    session's local copy (after login) and the next fresh label id.  An
    account maps each note id to the set of ids of its labels and each
    label id to its name.  [login] copies the stored account into the
    session; [createLabel] allocates a fresh id; [note.labels.add] adds a
    label id to the note's set; [sync] writes the session's copy back,
    and raises, changing nothing, when the service is unreachable or
    rejects the change.

    [km_wf] is the invariant (label names unique, every label of a note
    exists, ids below the next fresh id); [KeepLaws] is discharged under
    it, with [km_view] mapping label ids to names. *)

From stdpp Require Import base strings gmap list fin_maps.
From S2P Require Import Prelude Effects KeepApi.

Local Open Scope string_scope.

Record kaccount := mkKAccount {
  ka_notes : gmap string (gset N);
  ka_labels : gmap N string
}.

Record keep_state := mkKeepState {
  ks_email : string;
  ks_password : string;
  ks_online : bool;
  ks_accepts : bool;
  ks_remote : kaccount;
  ks_local : option kaccount;
  ks_next : N
}.

Definition ks_set_local (l : option kaccount) (k : keep_state) : keep_state :=
  mkKeepState (ks_email k) (ks_password k) (ks_online k) (ks_accepts k) (ks_remote k) l (ks_next k).

(** The id of the label called [n], if any. *)
Definition find_label_id (n : string) (ls : gmap N string) : option N :=
  fst <$> List.find (fun p => bool_decide (p.2 = n)) (map_to_list ls).

(** ** The calls *)

Definition km_new (k : keep_state) : keep_state := ks_set_local None k.

Definition km_login (e p : string) (k : keep_state) : (string + bool) * keep_state :=
  if negb (ks_online k) then (inl "network unreachable", k)
  else if bool_decide (e = ks_email k /\ p = ks_password k)
  then (inr true, ks_set_local (Some (ks_remote k)) k)
  else (inr false, k).

Definition km_get (id : string) (k : keep_state) : option string :=
  acc ← ks_local k; if bool_decide (is_Some (ka_notes acc !! id)) then Some id else None.

Definition km_findLabel (n : string) (k : keep_state) : option label :=
  acc ← ks_local k; (fun i => mkLabel i n) <$> find_label_id n (ka_labels acc).

Definition km_createLabel (n : string) (k : keep_state) : (string + label) * keep_state :=
  match ks_local k with
  | None => (inl "not logged in", k)
  | Some acc =>
      if bool_decide (n ∈ (map_img (ka_labels acc) : gset string))
      then (inl "label already exists", k)
      else (inr (mkLabel (ks_next k) n),
            mkKeepState (ks_email k) (ks_password k) (ks_online k) (ks_accepts k) (ks_remote k)
              (Some (mkKAccount (ka_notes acc) (<[ks_next k := n]> (ka_labels acc))))
              (ks_next k + 1)%N)
  end.

Definition km_labels_add (id : string) (l : label) (k : keep_state) : keep_state :=
  ks_set_local
    ((fun acc => mkKAccount (alter (union {[label_id l]}) id (ka_notes acc)) (ka_labels acc))
       <$> ks_local k) k.

Definition km_sync (k : keep_state) : (string + unit) * keep_state :=
  if negb (ks_online k) then (inl "network unreachable", k)
  else if negb (ks_accepts k) then (inl "change rejected by the service", k)
  else match ks_local k with
       | None => (inl "not logged in", k)
       | Some acc =>
           (inr (), mkKeepState (ks_email k) (ks_password k) (ks_online k) (ks_accepts k) acc (Some acc) (ks_next k))
       end.

#[export] Instance keep_model_client : KeepClient keep_state := {
  keep_new := km_new;
  keep_login := km_login;
  keep_get := km_get;
  keep_findLabel := km_findLabel;
  keep_createLabel := km_createLabel;
  keep_labels_add := km_labels_add;
  keep_sync := km_sync
}.

(** ** The abstract view and the invariant *)

Definition label_name_of (acc : kaccount) (i : N) : string :=
  default EmptyString (ka_labels acc !! i).

Definition view_acc (acc : kaccount) : account :=
  mkAccount (set_map (label_name_of acc) <$> ka_notes acc) (map_img (ka_labels acc)).

Definition km_view (k : keep_state) : option account := view_acc <$> ks_local k.

Definition wf_acc (next : N) (acc : kaccount) : Prop :=
  (forall i j n, ka_labels acc !! i = Some n -> ka_labels acc !! j = Some n -> i = j) /\
  (forall id ids i, ka_notes acc !! id = Some ids -> i ∈ ids -> is_Some (ka_labels acc !! i)) /\
  (forall i, is_Some (ka_labels acc !! i) -> (i < next)%N).

Definition km_wf (k : keep_state) : Prop :=
  wf_acc (ks_next k) (ks_remote k) /\
  match ks_local k with Some acc => wf_acc (ks_next k) acc | None => True end.

(** ** An executable check of the invariant *)

Definition wf_acc_check (next : N) (acc : kaccount) : bool :=
  bool_decide (NoDup (snd <$> map_to_list (ka_labels acc))) &&
  bool_decide (map_Forall (fun _ ids => Forall (fun i => is_Some (ka_labels acc !! i)) (elements ids))
                 (ka_notes acc)) &&
  bool_decide (map_Forall (fun i _ => (i < next)%N) (ka_labels acc)).

Definition km_wf_check (k : keep_state) : bool :=
  wf_acc_check (ks_next k) (ks_remote k) &&
  match ks_local k with Some acc => wf_acc_check (ks_next k) acc | None => true end.

(** ** Lemmas on label lookup by name *)

Lemma find_label_id_Some n ls i : find_label_id n ls = Some i -> ls !! i = Some n.
Proof.
  unfold find_label_id. destruct (List.find _ _) as [[j m]|] eqn:E; [|done]. intros [= <-].
  apply List.find_some in E as [Hin Hm]. apply bool_decide_eq_true in Hm. simpl in Hm; subst.
  by apply elem_of_map_to_list, list_elem_of_In.
Qed.

Lemma find_label_id_None n ls : find_label_id n ls = None <-> n ∉ (map_img ls : gset string).
Proof.
  unfold find_label_id. rewrite elem_of_map_img. split.
  - destruct (List.find _ _) eqn:E; [done|]. intros _ [i Hi].
    pose proof (List.find_none _ _ E (i, n)) as Hf.
    rewrite <- list_elem_of_In, elem_of_map_to_list in Hf.
    specialize (Hf Hi). simpl in Hf. by rewrite bool_decide_eq_false in Hf.
  - intros Hn. destruct (List.find _ _) as [[j m]|] eqn:E; [|done]. exfalso.
    apply List.find_some in E as [Hin Hm]. apply bool_decide_eq_true in Hm. simpl in Hm; subst.
    apply Hn. exists j. by apply elem_of_map_to_list, list_elem_of_In.
Qed.

Lemma find_label_id_unique n (ls : gmap N string) i :
  (forall i j n, ls !! i = Some n -> ls !! j = Some n -> i = j) ->
  ls !! i = Some n -> find_label_id n ls = Some i.
Proof.
  intros Hinj Hi. destruct (find_label_id n ls) as [j|] eqn:E.
  - f_equal. apply find_label_id_Some in E. by eapply Hinj.
  - apply find_label_id_None in E. destruct E. apply elem_of_map_img. by exists i.
Qed.

Lemma km_findLabel_spec n k :
  km_findLabel n k = acc ← ks_local k; (fun i => mkLabel i n) <$> find_label_id n (ka_labels acc).
Proof. done. Qed.

(** ** The view of an account after each change *)

Lemma label_name_of_insert_fresh acc i n j :
  ka_labels acc !! i = None -> is_Some (ka_labels acc !! j) ->
  label_name_of (mkKAccount (ka_notes acc) (<[i:=n]> (ka_labels acc))) j = label_name_of acc j.
Proof.
  intros Hi [x Hj]. unfold label_name_of; simpl. rewrite lookup_insert_ne; [done|]. congruence.
Qed.

Lemma view_acc_define acc n next :
  wf_acc next acc -> n ∉ (map_img (ka_labels acc) : gset string) ->
  view_acc (mkKAccount (ka_notes acc) (<[next:=n]> (ka_labels acc))) = acc_define n (view_acc acc).
Proof.
  intros (Hinj & Href & Hbound) Hn.
  assert (ka_labels acc !! next = None) as Hfresh.
  { destruct (ka_labels acc !! next) eqn:E; [|done]. exfalso.
    specialize (Hbound next (ltac:(by eexists))). lia. }
  unfold view_acc, acc_define; simpl. f_equal.
  - apply map_eq. intros id. rewrite !lookup_fmap.
    destruct (ka_notes acc !! id) as [ids|] eqn:E; [simpl|done]. f_equal.
    apply set_eq. intros x. rewrite !elem_of_map. split; intros [j [-> Hj]]; exists j;
      (split; [|done]); rewrite label_name_of_insert_fresh; eauto.
  - by rewrite map_img_insert_notin_L.
Qed.

Lemma view_acc_tag acc id l :
  ka_labels acc !! label_id l = Some (label_name l) ->
  view_acc (mkKAccount (alter (union {[label_id l]}) id (ka_notes acc)) (ka_labels acc)) =
  acc_tag id (label_name l) (view_acc acc).
Proof.
  intros Hl. unfold view_acc, acc_tag; simpl. f_equal.
  apply map_eq. intros id'. rewrite lookup_fmap, !lookup_alter, lookup_fmap.
  destruct (decide (id = id')); [subst|by rewrite lookup_fmap].
  destruct (ka_notes acc !! id') as [ids|]; [simpl|done]. f_equal.
  rewrite set_map_union_L, set_map_singleton_L. unfold label_name_of at 1; simpl. by rewrite Hl.
Qed.

(** ** The invariant is preserved *)

Lemma wf_acc_mono next next' acc : wf_acc next acc -> (next <= next')%N -> wf_acc next' acc.
Proof. intros (? & ? & Hb) Hle. split_and!; [done|done|]. intros i Hi. specialize (Hb i Hi). lia. Qed.

Lemma wf_acc_define next acc n :
  wf_acc next acc -> n ∉ (map_img (ka_labels acc) : gset string) ->
  wf_acc (next + 1) (mkKAccount (ka_notes acc) (<[next:=n]> (ka_labels acc))).
Proof.
  intros (Hinj & Href & Hb) Hn. unfold wf_acc. cbn [ka_labels ka_notes]. split_and!.
  - intros i j m. rewrite !lookup_insert.
    destruct (decide (next = i)), (decide (next = j)); subst; intros Hi Hj; simplify_eq; try done.
    + destruct Hn. apply elem_of_map_img. eauto.
    + destruct Hn. apply elem_of_map_img. eauto.
    + by eapply Hinj.
  - intros id ids i Hids Hi. rewrite lookup_insert. case_decide; [done|]. by eapply Href.
  - intros i. rewrite lookup_insert. case_decide; [lia|]. intros Hi. specialize (Hb i Hi). lia.
Qed.

Lemma wf_acc_tag next acc id i :
  wf_acc next acc -> is_Some (ka_labels acc !! i) ->
  wf_acc next (mkKAccount (alter (union {[i]}) id (ka_notes acc)) (ka_labels acc)).
Proof.
  intros (Hinj & Href & Hb) Hi. unfold wf_acc. cbn [ka_labels ka_notes]. split_and!; [done| |done].
  intros id' ids j. rewrite lookup_alter. destruct (decide (id = id')); [subst|by eapply Href].
  destruct (ka_notes acc !! id') as [ids0|] eqn:E; simpl; intros Hids Hj; simplify_eq.
  apply elem_of_union in Hj as [->%elem_of_singleton | Hj]; [done|]. by eapply Href.
Qed.

Lemma km_findLabel_Some n k l :
  km_findLabel n k = Some l ->
  exists acc, ks_local k = Some acc /\ ka_labels acc !! label_id l = Some n /\ label_name l = n.
Proof.
  unfold km_findLabel. destruct (ks_local k) as [acc|]; simpl; [|done].
  destruct (find_label_id n (ka_labels acc)) as [i|] eqn:E; simpl; [|done]. intros [= <-].
  exists acc. split_and!; [done| |done]. by apply find_label_id_Some.
Qed.

#[export] Hint Resolve wf_acc_mono wf_acc_define wf_acc_tag : keep.

(** ** The model satisfies the collaborator contract *)

#[export] Program Instance keep_model_laws : KeepLaws keep_state := {
  keep_wf := km_wf;
  keep_view := km_view;
  keep_remote k := view_acc (ks_remote k)
}.
Next Obligation. intros k [Hr _]. by split. Qed.
Next Obligation. done. Qed.
Next Obligation. done. Qed.
Next Obligation.
  intros e p k [Hr Hl]. unfold keep_login; simpl; unfold km_login.
  destruct (ks_online k); simpl; [|by split]. case_bool_decide; by split.
Qed.
Next Obligation.
  intros e p k k' _. unfold keep_login; simpl; unfold km_login.
  destruct (ks_online k); simpl; [|done]. case_bool_decide; [|done]. by intros [= <-].
Qed.
Next Obligation.
  intros id k _. unfold keep_get; simpl; unfold km_get, km_view, acc_has_note.
  destruct (ks_local k) as [acc|]; simpl; [|done].
  unfold view_acc; cbn [acc_notes].
  case_bool_decide as H1; case_bool_decide as H2; try done;
    rewrite lookup_fmap, fmap_is_Some in H2; tauto.
Qed.
Next Obligation.
  intros n k l _ Hf. by destruct (km_findLabel_Some n k l Hf) as (? & _ & _ & ?).
Qed.
Next Obligation.
  intros n k _. unfold keep_findLabel; simpl; unfold km_findLabel, km_view.
  destruct (ks_local k) as [acc|]; simpl.
  - rewrite fmap_is_Some. split.
    + intros Hs. exists (view_acc acc). split; [done|]. simpl.
      destruct (find_label_id n (ka_labels acc)) eqn:E; [|by destruct Hs].
      apply find_label_id_Some in E. apply elem_of_map_img. eauto.
    + intros (a & [= <-] & Hn). destruct (find_label_id n (ka_labels acc)) eqn:E; [done|].
      by apply find_label_id_None in E.
  - split; [intros [x Hx] | intros (a & Ha & _)]; discriminate.
Qed.
Next Obligation.
  intros n k Hwf. unfold keep_createLabel; simpl; unfold km_createLabel.
  destruct (ks_local k) as [acc|] eqn:E; [|done]. case_bool_decide; [done|].
  destruct Hwf as [Hr Hl]. rewrite E in Hl. split; simpl; eauto with keep lia.
Qed.
Next Obligation.
  intros n k e k' _. unfold keep_createLabel; simpl; unfold km_createLabel.
  destruct (ks_local k) as [acc|]; [|by intros [= <- <-]]. case_bool_decide; by intros [= <- <-].
Qed.
Next Obligation.
  intros n k a l k' [Hr Hl]. unfold keep_createLabel, keep_findLabel; simpl.
  unfold km_createLabel, km_view. destruct (ks_local k) as [acc|] eqn:E; simpl; [|done].
  intros [= <-] Hn. case_bool_decide as Hin; [simpl in Hn; congruence|]. intros [= <- <-].
  simpl. split_and!; [by rewrite view_acc_define | | done].
  unfold km_findLabel; simpl. rewrite (find_label_id_unique _ _ (ks_next k)); [done| |].
  - apply (wf_acc_define _ _ _ Hl Hin).
  - apply lookup_insert_eq.
Qed.
Next Obligation.
  intros id l k [Hr Hl] Hf. destruct (km_findLabel_Some _ k l Hf) as (acc & E & Hi & _).
  unfold keep_labels_add; simpl; unfold km_labels_add. split; [done|]. simpl. rewrite E in Hl |- *.
  simpl. eauto with keep.
Qed.
Next Obligation.
  intros id l k a _ Hv _ Hf. destruct (km_findLabel_Some _ k l Hf) as (acc & E & Hi & Hname).
  unfold keep_labels_add; simpl; unfold km_labels_add, km_view in *. rewrite E in Hv |- *.
  simpl in *. injection Hv as <-. split; [|done]. f_equal.
  by apply view_acc_tag.
Qed.
Next Obligation.
  intros k Hwf. unfold keep_sync; simpl; unfold km_sync.
  destruct (ks_online k), (ks_accepts k); simpl; try done. pose proof Hwf as [Hr Hl].
  destruct (ks_local k); [by split|done].
Qed.
Next Obligation.
  intros k _. unfold keep_sync; simpl; unfold km_sync, km_view.
  destruct (ks_online k), (ks_accepts k); simpl; try done.
  destruct (ks_local k) eqn:E; simpl; by rewrite ?E.
Qed.
Next Obligation.
  intros k a k' _. unfold keep_sync; simpl; unfold km_sync, km_view.
  destruct (ks_online k), (ks_accepts k); simpl; try done.
  destruct (ks_local k); simpl; [|done]. by intros [= <-] [= <-].
Qed.
Next Obligation.
  intros k m k' _. unfold keep_sync; simpl; unfold km_sync.
  destruct (ks_online k), (ks_accepts k); simpl; try (by intros [= _ <-]).
  destruct (ks_local k); simpl; [done|by intros [= _ <-]].
Qed.

Lemma wf_acc_check_sound next acc : wf_acc_check next acc = true -> wf_acc next acc.
Proof.
  unfold wf_acc_check. rewrite !andb_true_iff, !bool_decide_eq_true.
  intros [[Hnd Href] Hb]. split_and!.
  - intros i j n Hi Hj. eapply NoDup_snd_inj; [exact Hnd| |]; by apply elem_of_map_to_list.
  - intros id ids i Hids Hi. specialize (Href id ids Hids). rewrite Forall_forall in Href.
    apply Href. by apply elem_of_elements.
  - intros i [x Hi]. exact (Hb i x Hi).
Qed.

(** The model's invariant, decided by computation. *)
Lemma km_wf_check_sound k : km_wf_check k = true -> km_wf k.
Proof.
  unfold km_wf_check, km_wf. rewrite andb_true_iff. intros [Hr Hl].
  split; [by apply wf_acc_check_sound|]. destruct (ks_local k); [by apply wf_acc_check_sound|done].
Qed.
