(* ===== verification/KeepMachine.v ===== *)
(** * KeepMachine: the protocol of the client, and total correctness

    What a caller of [gkeepapi] may do, as a labelled transition system
    over the calls the script logs ([event]): [km_step k e k'] allows the
    call [e] in client state [k] and gives the next state [k'].  Reads and
    changes need a logged-in session, [createLabel] is only for a name
    [findLabel] does not know, and [note.labels.add] only takes the note
    [get] returned and a label the client handed out.  [km_trace] is a
    path of such steps, [km_next] and [km_replay] the same protocol as an
    executable replay of a log (proved equivalent), and [km_follows w w' l]
    says that a run from [w] to [w'] logged [l] along a path.  The
    protocol is modelled from the spec (section 6), as [gkeepapi] is not
    part of the repository.

    The theorems: every run of lines 50-52, whatever its outcome, follows
    the protocol, and a run that returns ends with [note.labels.add] of
    the requested label on the requested note and [keep.sync()]; on a
    service that is reachable and accepts changes, the whole process with
    valid credentials and an existing note succeeds for every account,
    with the specified account stored, the empty label name included. *)

From stdpp Require Import base strings gmap list.
From S2P Require Import Prelude Effects KeepApi Argparse Script Docstring KeepModel.

(** ** The protocol of the client

    [km_step k e k'] says that the call logged as [e] is allowed on the
    client in state [k] and leaves it in [k'].  Reading the environment
    does not touch the client; [Keep()] and [login] are always allowed;
    every other call needs a logged-in session; [createLabel] is only
    for a name [findLabel] does not know; [note.labels.add] only for a
    note [get] returns and a label [findLabel] hands out. *)
Inductive km_step : keep_state -> event -> keep_state -> Prop :=
  | step_getenv key k : km_step k (EvGetenv key) k
  | step_new k : km_step k EvKeepNew (km_new k)
  | step_login e p k : km_step k (EvLogin e p) (km_login e p k).2
  | step_get id k : is_Some (ks_local k) -> km_step k (EvGet id) k
  | step_find n k : is_Some (ks_local k) -> km_step k (EvFindLabel n) k
  | step_create n k :
      is_Some (ks_local k) -> km_findLabel n k = None -> km_step k (EvCreateLabel n) (km_createLabel n k).2
  | step_labels_add id n l k :
      is_Some (km_get id k) -> km_findLabel n k = Some l ->
      km_step k (EvLabelsAdd id n) (km_labels_add id l k)
  | step_sync k : is_Some (ks_local k) -> km_step k EvSync (km_sync k).2.

(** The same protocol as a function: the state after [e], or [None] when
    [e] is not allowed. *)
Definition km_next (k : keep_state) (e : event) : option keep_state :=
  match e with
  | EvGetenv _ => Some k
  | EvKeepNew => Some (km_new k)
  | EvLogin em p => Some (km_login em p k).2
  | EvGet _ | EvFindLabel _ => match ks_local k with Some _ => Some k | None => None end
  | EvCreateLabel n =>
      match ks_local k, km_findLabel n k with
      | Some _, None => Some (km_createLabel n k).2
      | _, _ => None
      end
  | EvLabelsAdd id n =>
      match km_get id k, km_findLabel n k with
      | Some _, Some l => Some (km_labels_add id l k)
      | _, _ => None
      end
  | EvSync => match ks_local k with Some _ => Some (km_sync k).2 | None => None end
  end.

(** A log of calls as a path of the protocol. *)
Inductive km_trace : keep_state -> list event -> keep_state -> Prop :=
  | trace_nil k : km_trace k [] k
  | trace_cons k e k1 l k2 : km_step k e k1 -> km_trace k1 l k2 -> km_trace k (e :: l) k2.

Fixpoint km_replay (k : keep_state) (l : list event) : option keep_state :=
  match l with
  | [] => Some k
  | e :: l' => k1 ← km_next k e; km_replay k1 l'
  end.

(** A run from [w] to [w'] logs [l] and moves the client along [l]. *)
Definition km_follows (w w' : world keep_state) (l : list event) : Prop :=
  w_log w' = w_log w ++ l /\ km_trace (w_keep w) l (w_keep w').

#[export] Hint Constructors km_step km_trace : keep.

(** ** The protocol as a function *)

Lemma km_next_step k e k' : km_next k e = Some k' <-> km_step k e k'.
Proof.
  split.
  - destruct e; simpl; intros H;
      repeat match goal with
      | H : context [match ?x with _ => _ end] |- _ => destruct x eqn:?
      | H : Some _ = Some _ |- _ => injection H as <-
      end; simplify_eq/=; eauto with keep.
  - destruct 1 as [| | | ? ? [] | ? ? [] | ? ? [] ? | ? ? ? ? [] ? | ? []]; simpl;
      repeat match goal with H : _ = _ |- _ => rewrite H end; done.
Qed.

Lemma km_replay_trace k l k' : km_replay k l = Some k' <-> km_trace k l k'.
Proof.
  revert k. induction l as [|e l IH]; intros k; simpl.
  - split; [intros [= <-]; constructor|inversion 1; done].
  - split.
    + destruct (km_next k e) as [k1|] eqn:E; simpl; [|done].
      intros H. econstructor; [by apply km_next_step|by apply IH].
    + inversion 1 as [|? ? k1 ? ? Hs Ht]; subst.
      apply km_next_step in Hs. rewrite Hs. simpl. by apply IH.
Qed.

Lemma km_trace_app k l1 k1 l2 k2 :
  km_trace k l1 k1 -> km_trace k1 l2 k2 -> km_trace k (l1 ++ l2) k2.
Proof. induction 1; simpl; eauto with keep. Qed.

(** ** Runs that follow the protocol *)

Lemma follows_refl w : km_follows w w [].
Proof. split; [by rewrite app_nil_r|constructor]. Qed.

Lemma follows_trans w1 w2 w3 l1 l2 :
  km_follows w1 w2 l1 -> km_follows w2 w3 l2 -> km_follows w1 w3 (l1 ++ l2).
Proof.
  intros [H1 T1] [H2 T2]. split; [by rewrite H2, H1, app_assoc|by eapply km_trace_app].
Qed.

Lemma follows_step w e k' :
  km_step (w_keep w) e k' -> km_follows w (set_keep k' (add_log e w)) [e].
Proof. intros Hs. split; [done|]. simpl. eauto with keep. Qed.

Lemma follows_log w e :
  km_step (w_keep w) e (w_keep w) -> km_follows w (add_log e w) [e].
Proof. intros Hs. by destruct (follows_step w e _ Hs) as [H T]. Qed.

Lemma follows_creds w : km_follows w (creds_logged w) [EvGetenv "KEEP_EMAIL"; EvGetenv "KEEP_PASSWORD"].
Proof.
  split; [unfold creds_logged; simpl; by rewrite <- app_assoc|].
  simpl. eapply trace_cons; [apply step_getenv|]. eapply trace_cons; [apply step_getenv|]. apply trace_nil.
Qed.

(** ** The calls of the client model *)

Lemma km_get_Some id k r : km_get id k = Some r -> r = id /\ is_Some (ks_local k).
Proof.
  unfold km_get. destruct (ks_local k) as [acc|]; simpl; [|done].
  case_bool_decide; [intros [= <-]; by split|done].
Qed.

Lemma km_labels_add_local id l k : is_Some (ks_local k) -> is_Some (ks_local (km_labels_add id l k)).
Proof. intros [acc El]. unfold km_labels_add. simpl. rewrite El. by eexists. Qed.

Lemma km_createLabel_get n k id : km_get id (km_createLabel n k).2 = km_get id k.
Proof.
  unfold km_createLabel. destruct (ks_local k) as [acc|] eqn:El; [|done].
  case_bool_decide; [done|]. unfold km_get. simpl. by rewrite El.
Qed.

Lemma km_login_true e p k k' : km_login e p k = (inr true, k') -> is_Some (ks_local k').
Proof. unfold km_login. repeat case_match; intros; simplify_eq/=; by eexists. Qed.

(** ** Each function of the script follows the protocol *)

Lemma follows_stdout w s : km_follows w (add_stdout s w) [].
Proof. split; [by rewrite app_nil_r|constructor]. Qed.

Lemma login_follows (w : world keep_state) :
  exists l, km_follows w (login w).2 l /\ ((login w).1 = inr () -> is_Some (ks_local (w_keep (login w).2))).
Proof.
  rewrite login_run. destruct (_ || _); [eexists; split; [apply follows_creds|discriminate]|].
  set (e := default EmptyString (w_env w !! "KEEP_EMAIL")).
  set (p := default EmptyString (w_env w !! "KEEP_PASSWORD")).
  assert (Hf : km_follows w
    (set_keep (keep_login e p (keep_new (w_keep w))).2
       (add_log (EvLogin e p) (set_keep (keep_new (w_keep w)) (add_log EvKeepNew (creds_logged w)))))
    ([EvGetenv "KEEP_EMAIL"; EvGetenv "KEEP_PASSWORD"] ++ [EvKeepNew] ++ [EvLogin e p])).
  { eapply follows_trans; [apply follows_creds|].
    eapply follows_trans; [apply (follows_step _ _ (km_new (w_keep w))), step_new|].
    apply follows_step, step_login. }
  destruct (keep_login e p (keep_new (w_keep w))) as [[m|[]] k'] eqn:E;
    (eexists; split; [exact Hf|]); [discriminate|intros _; exact (km_login_true _ _ _ _ E)|discriminate].
Qed.

Lemma tag_and_sync_follows r l (w : world keep_state) :
  is_Some (km_get r (w_keep w)) -> km_findLabel (label_name l) (w_keep w) = Some l ->
  km_follows w (tag_and_sync r l w).2 [EvLabelsAdd r (label_name l); EvSync].
Proof.
  intros Hg Hf. rewrite tag_and_sync_run.
  assert (Hl : is_Some (ks_local (km_labels_add r l (w_keep w)))).
  { apply km_labels_add_local. destruct Hg as [? Hg]. by destruct (km_get_Some _ _ _ Hg). }
  assert (Hp : km_follows w
    (set_keep (km_sync (km_labels_add r l (w_keep w))).2
       (add_log EvSync (set_keep (km_labels_add r l (w_keep w)) (add_log (EvLabelsAdd r (label_name l)) w))))
    ([EvLabelsAdd r (label_name l)] ++ [EvSync])).
  { eapply follows_trans; [apply follows_step; by econstructor|]. apply follows_step, step_sync, Hl. }
  cbn in Hp |- *. by destruct (km_sync _) as [[m|[]] k''].
Qed.

Lemma add_label_follows (w : world keep_state) id n :
  km_wf (w_keep w) -> is_Some (ks_local (w_keep w)) ->
  exists l, km_follows w (add_label id n w).2 l /\
    ((add_label id n w).1 = inr () -> exists l0, l = l0 ++ [EvLabelsAdd id n; EvSync]).
Proof.
  intros Hwf Hloc. rewrite add_label_run.
  destruct (keep_get id (w_keep w)) as [r|] eqn:Eg.
  2:{ eexists; split; [apply follows_log; by constructor|discriminate]. }
  cbn in Eg. destruct (km_get_Some _ _ _ Eg) as [-> _].
  assert (H2 : km_follows w (add_log (EvFindLabel n) (add_log (EvGet id) w)) ([EvGet id] ++ [EvFindLabel n])).
  { eapply follows_trans; apply follows_log; by constructor. }
  destruct (keep_findLabel n (w_keep w)) as [l|] eqn:Ef; cbn in Ef.
  - destruct (km_findLabel_Some _ _ _ Ef) as (_ & _ & _ & Hn).
    eexists; split; [eapply follows_trans; [exact H2|apply tag_and_sync_follows]|].
    + cbn. by rewrite Eg.
    + cbn. by rewrite Hn.
    + intros _. rewrite Hn. by exists [EvGet id; EvFindLabel n].
  - assert (H3 : km_follows w
      (set_keep (keep_createLabel n (w_keep w)).2 (add_log (EvCreateLabel n) (add_log (EvFindLabel n) (add_log (EvGet id) w))))
      (([EvGet id] ++ [EvFindLabel n]) ++ [EvCreateLabel n])).
    { eapply follows_trans; [exact H2|]. apply follows_step. by constructor. }
    destruct (keep_createLabel n (w_keep w)) as [[m|l] k'] eqn:Ec.
    + eexists; split; [exact H3|discriminate].
    + destruct Hloc as [acc El].
      assert (Hv : keep_view (w_keep w) = Some (view_acc acc)) by (cbn; unfold km_view; by rewrite El).
      pose proof (findLabel_absent (K:=keep_state) (w_keep w)) as Habs.
      destruct (@createLabel_ok keep_state _ keep_model_laws n (w_keep w) _ l k' Hwf Hv
                  (Habs _ _ Hwf Hv Ef) Ec) as (_ & Hfl & _).
      cbn in Hfl. destruct (km_findLabel_Some _ _ _ Hfl) as (_ & _ & _ & Hn).
      eexists; split; [eapply follows_trans; [exact H3|apply tag_and_sync_follows]|].
      * cbn. replace k' with (km_createLabel n (w_keep w)).2 by (cbn in Ec; by rewrite Ec).
        by rewrite km_createLabel_get, Eg.
      * cbn. by rewrite Hn.
      * intros _. rewrite Hn. by exists [EvGet id; EvFindLabel n; EvCreateLabel n].
Qed.

(** C30 (safety): every run of lines 50-52 on the executable client,
    whatever its outcome, uses the client as its protocol allows: the
    calls the run logs, in their order, form a path of [km_step] from the
    client's first state to its last, so nothing is read before a
    successful login, [createLabel] is only called for a name [findLabel]
    did not find, and [note.labels.add] only gets the note [get] returned
    and a label the client handed out; and a run that returns ends with
    [note.labels.add] of the requested label on the requested note
    followed by [keep.sync()]. *)
Theorem main_body_follows_protocol nid lname (w : world keep_state) :
  km_wf (w_keep w) ->
  exists l, w_log (main_body nid lname w).2 = w_log w ++ l /\
    km_trace (w_keep w) l (w_keep (main_body nid lname w).2) /\
    ((main_body nid lname w).1 = inr () -> exists l0, l = l0 ++ [EvLabelsAdd nid lname; EvSync]).
Proof.
  intros Hwf. pose proof (login_wf_world w Hwf) as Hwf1.
  destruct (login_follows w) as (l1 & H1 & Hok1).
  unfold main_body. rewrite run_bind. destruct (login w) as [[x|[]] w1]; simpl in *.
  { exists l1. destruct H1 as [H1 T1]. split_and!; [exact H1|exact T1|discriminate]. }
  destruct (add_label_follows w1 nid lname Hwf1 (Hok1 eq_refl)) as (l2 & H2 & Hok2).
  rewrite run_bind. destruct (add_label nid lname w1) as [[y|[]] w2]; simpl in *.
  - destruct (follows_trans _ _ _ _ _ H1 H2) as [H T]. exists (l1 ++ l2). split_and!; [exact H|exact T|discriminate].
  - destruct (follows_trans _ _ _ _ _ H1 (follows_trans _ _ _ _ _ H2 (follows_stdout w2 (msg_added lname nid))))
      as [H T].
    exists (l1 ++ l2 ++ []). split_and!; [exact H|exact T|].
    intros _. destruct (Hok2 eq_refl) as [l0 ->]. exists (l1 ++ l0). by rewrite app_nil_r, app_assoc.
Qed.

(** ** Success on a service that answers *)

Lemma km_sync_ok k :
  ks_online k = true -> ks_accepts k = true -> is_Some (ks_local k) -> (km_sync k).1 = inr ().
Proof. intros Ho Ha [acc El]. unfold km_sync. by rewrite Ho, Ha, El. Qed.

Lemma tag_and_sync_ok (w : world keep_state) r l :
  ks_online (w_keep w) = true -> ks_accepts (w_keep w) = true -> is_Some (ks_local (w_keep w)) ->
  (tag_and_sync r l w).1 = inr ().
Proof.
  intros Ho Ha Hl. rewrite tag_and_sync_run. cbn.
  assert (Hs : (km_sync (km_labels_add r l (w_keep w))).1 = inr ()).
  { apply km_sync_ok; [done|done|]. destruct Hl as [acc El]. unfold km_labels_add. cbn. rewrite El. by eexists. }
  destruct (km_sync _) as [[m|[]] k'']; done.
Qed.

(** On a service that answers, [add_label] on a note of the session
    returns: the label is found or created, attached and synchronised. *)
Lemma km_add_label_ok (w : world keep_state) id n a :
  keep_wf (w_keep w) -> ks_online (w_keep w) = true -> ks_accepts (w_keep w) = true ->
  keep_view (w_keep w) = Some a -> acc_has_note id a = true -> (add_label id n w).1 = inr ().
Proof.
  intros Hwf Ho Ha Hv Hn. rewrite add_label_run, (get_present _ _ _ Hwf Hv Hn).
  destruct (ks_local (w_keep w)) as [acc|] eqn:El; [|by cbn in Hv; unfold km_view in Hv; rewrite El in Hv].
  destruct (keep_findLabel n (w_keep w)) as [l|] eqn:Hf; [apply tag_and_sync_ok; cbn; by rewrite ?El|].
  pose proof (findLabel_absent (K:=keep_state) _ _ _ Hwf Hv Hf) as Hnot.
  assert (a = view_acc acc) as -> by (cbn in Hv; unfold km_view in Hv; rewrite El in Hv; by injection Hv).
  destruct (keep_createLabel n (w_keep w)) as [[m|l] k'] eqn:Hc; cbn in Hc; unfold km_createLabel in Hc;
    rewrite El, bool_decide_false in Hc by exact Hnot; [discriminate Hc|injection Hc as <- <-].
  apply tag_and_sync_ok; cbn; by rewrite ?Ho, ?Ha.
Qed.

(** The run of the script on a service that answers, for any command
    line that parses to two plain values. *)
Lemma keep_model_run_ok argv0 argv (k : keep_state) env nid lname :
  parse_args argv = ArgsOk (mkNamespace (VStr nid) (VStr lname)) ->
  km_wf k -> ks_online k = true -> ks_accepts k = true ->
  env !! "KEEP_EMAIL" = Some (ks_email k) -> ks_email k <> EmptyString ->
  env !! "KEEP_PASSWORD" = Some (ks_password k) -> ks_password k <> EmptyString ->
  acc_has_note nid (view_acc (ks_remote k)) = true ->
  exists w', process argv0 argv (mkWorld env k [] [] []) = Some (0%nat, w') /\
    w_stdout w' = [msg_added lname nid] /\
    view_acc (ks_remote (w_keep w')) = acc_tag nid lname (acc_define lname (view_acc (ks_remote k))).
Proof.
  intros Hparse Hwf Ho Ha He Hne Hp Hpne Hnote.
  assert (Hlogin : keep_login (ks_email k) (ks_password k) (keep_new (w_keep (mkWorld env k [] [] []))) =
                   (inr true, ks_set_local (Some (ks_remote k)) (km_new k))).
  { cbn. unfold km_login. cbn. rewrite Ho. by rewrite bool_decide_true. }
  destruct (@process_after_login keep_state _ keep_model_laws argv0 argv nid lname
              (mkWorld env k [] [] []) _ _ _
              Hparse Hwf He Hne Hp Hpne Hlogin)
    as (w1 & Hk1 & Hwf1 & Hv1 & _ & _ & Hout1 & _ & ->).
  pose proof (@add_label_sound keep_state _ keep_model_laws w1 nid lname _ Hwf1 Hv1 Hnote) as Hs.
  assert (Hok : (add_label nid lname w1).1 = inr ())
    by (eapply (km_add_label_ok w1 nid lname); [exact Hwf1|by rewrite Hk1|by rewrite Hk1|exact Hv1|exact Hnote]).
  pose proof (add_label_stdout w1 nid lname) as Hout2.
  rewrite run_bind. destruct (add_label nid lname w1) as [r w2]. cbn in Hok, Hout2. subst r.
  destruct Hs as (_ & _ & Hrem). eexists. split; [reflexivity|]. cbn.
  split; [by rewrite Hout2, Hout1|exact Hrem].
Qed.

(** C31 (functional): total correctness on the executable client.  For
    every well-formed account on a service that is reachable and accepts
    changes, with its credentials in the environment, every note of the
    account and every label name that read as values, the documented
    invocation exits with status 0, prints exactly the confirmation, and
    the service then stores the note with the label (spec section 8,
    first scenario, for all accounts). *)
Theorem keep_model_process_ok (k : keep_state) env nid lname :
  km_wf k -> ks_online k = true -> ks_accepts k = true ->
  env !! "KEEP_EMAIL" = Some (ks_email k) -> ks_email k <> EmptyString ->
  env !! "KEEP_PASSWORD" = Some (ks_password k) -> ks_password k <> EmptyString ->
  classify nid = TPos -> classify lname = TPos ->
  acc_has_note nid (view_acc (ks_remote k)) = true ->
  exists w', process doc_prog (doc_usage nid lname) (mkWorld env k [] [] []) = Some (0%nat, w') /\
    w_stdout w' = [msg_added lname nid] /\
    view_acc (ks_remote (w_keep w')) = acc_tag nid lname (acc_define lname (view_acc (ks_remote k))).
Proof.
  intros Hwf Ho Ha He Hne Hp Hpne Hn Hl.
  exact (keep_model_run_ok _ _ k env nid lname (doc_usage_parse _ _ Hn Hl) Hwf Ho Ha He Hne Hp Hpne).
Qed.

(** [--label=] parses to the empty label name. *)
Lemma parse_args_empty_label nid :
  classify nid = TPos ->
  parse_args ["--note"; nid; "--label="] = ArgsOk (mkNamespace (VStr nid) (VStr EmptyString)).
Proof.
  intros Hn. rewrite <- (get_values_str nid (classify_pos_not_sep _ Hn)).
  rewrite parse_args_unfold. scan_args. rewrite Hn. reflexivity.
Qed.

(** C32 (functional): the boundary of the label name, for every
    account.  [--label=] gives the empty string, which argparse accepts
    and lines 33-41 treat as any other name: on a service that answers,
    the run on an existing note creates a label named [''] (or reuses
    it), attaches it, syncs, prints the confirmation with the empty name
    and exits with 0. *)
Theorem keep_model_empty_label (k : keep_state) env nid :
  km_wf k -> ks_online k = true -> ks_accepts k = true ->
  env !! "KEEP_EMAIL" = Some (ks_email k) -> ks_email k <> EmptyString ->
  env !! "KEEP_PASSWORD" = Some (ks_password k) -> ks_password k <> EmptyString ->
  classify nid = TPos -> acc_has_note nid (view_acc (ks_remote k)) = true ->
  exists w', process doc_prog ["--note"; nid; "--label="] (mkWorld env k [] [] []) = Some (0%nat, w') /\
    w_stdout w' = ["Label '' added to note " +:+ nid] /\
    view_acc (ks_remote (w_keep w')) =
      acc_tag nid EmptyString (acc_define EmptyString (view_acc (ks_remote k))).
Proof.
  intros Hwf Ho Ha He Hne Hp Hpne Hn.
  exact (keep_model_run_ok _ _ k env nid EmptyString (parse_args_empty_label nid Hn) Hwf Ho Ha He Hne Hp Hpne).
Qed.
