(* ===== verification/Scenarios.v ===== *)
(** * Scenarios: concrete inputs for the theorems

    A concrete account on [KeepModel] (the notes [abc123], labelled
    [Work], and [todo]; the label [Work]), credentials in the
    environment, a service that accepts changes and one that rejects
    them.  Each witness applies a theorem with hypotheses at these
    inputs, discharging the hypotheses by computation (the client's
    invariant through [km_wf_check]). *)

From stdpp Require Import base strings gmap list.
From S2P Require Import Prelude Effects KeepApi Argparse Script Runs Docstring KeepModel KeepMachine.

Local Open Scope string_scope.

(** ** The concrete account and worlds *)

Definition acc_keep : kaccount :=
  mkKAccount (<["abc123" := {[0%N]}]> (<["todo" := ∅]> ∅)) (<[0%N := "Work"]> ∅).

Definition keep0 : keep_state := mkKeepState "me@example.com" "app-password" true true acc_keep None 1.

Definition env_ok : gmap string string :=
  <["KEEP_EMAIL" := "me@example.com"]> (<["KEEP_PASSWORD" := "app-password"]> ∅).

Definition world0 : world keep_state := mkWorld env_ok keep0 [] [] [].

(** The same world once the session has logged in. *)
Definition world_logged : world keep_state :=
  mkWorld env_ok (ks_set_local (Some acc_keep) keep0) [] [] [].

Definition prog := "google_keep_tags.py".

Definition argv_urgent := ["--note"; "abc123"; "--label"; "Urgent"].
Definition argv_missing := ["--note"; "missing"; "--label"; "Urgent"].
Definition ns_urgent := mkNamespace (VStr "abc123") (VStr "Urgent").

(** The final world of a run (the initial one when the command line is
    outside the modelled subset). *)
Definition final_world (argv : list string) (w : world keep_state) : world keep_state :=
  match process prog argv w with Some (_, w') => w' | None => w end.

Definition world_done : world keep_state := final_world argv_urgent world0.
Definition keep_rejecting : keep_state :=
  mkKeepState "me@example.com" "app-password" true false acc_keep None 1.

Definition world_rejecting : world keep_state := mkWorld env_ok keep_rejecting [] [] [].
Definition world_rejected : world keep_state := final_world argv_urgent world_rejecting.

Definition keep_session := ks_set_local (Some acc_keep) (km_new keep0).
Definition world_tagged : world keep_state := (add_label "abc123" "Urgent" world_logged).2.
Definition args_mixed : list opt_arg :=
  [mkOptArg OptNote Separate "abc123"; mkOptArg OptLabel Joined "-x"; mkOptArg OptNote Joined "todo"].

Lemma run_urgent : process prog argv_urgent world0 = Some (0%nat, world_done).
Proof. vm_compute. reflexivity. Qed.

Lemma run_rejected : process prog argv_urgent world_rejecting = Some (1%nat, world_rejected).
Proof. vm_compute. reflexivity. Qed.

(** ** Witnesses *)

Lemma world_logged_wf : keep_wf (w_keep world_logged).
Proof. apply km_wf_check_sound. vm_compute. reflexivity. Qed.

Lemma world0_wf : keep_wf (w_keep world0).
Proof. apply km_wf_check_sound. vm_compute. reflexivity. Qed.

Lemma add_label_refines_witness :
  keep_wf (w_keep world_logged) /\ keep_view (w_keep world_logged) = Some (view_acc acc_keep) /\
  match spec_add_label "abc123" "Urgent" (view_acc acc_keep) with
  | None => add_label "abc123" "Urgent" world_logged =
            (inl (ValueError (msg_not_found "abc123")), add_log (EvGet "abc123") world_logged)
  | Some a' =>
      let '(r, w') := add_label "abc123" "Urgent" world_logged in
      keep_wf (w_keep w') /\
      match r with
      | inr _ => keep_view (w_keep w') = Some a' /\ keep_remote (w_keep w') = a'
      | inl (KeepError _) => keep_view (w_keep w') = Some a' \/ keep_view (w_keep w') = Some (view_acc acc_keep)
      | inl _ => False
      end
  end.
Proof.
  split; [exact world_logged_wf|]. split; [reflexivity|].
  exact (add_label_refines world_logged "abc123" "Urgent" (view_acc acc_keep) world_logged_wf eq_refl).
Defined.

Lemma login_missing_credentials_witness :
  (py_truthy (w_env (mkWorld ∅ keep0 [] [] []) !! "KEEP_EMAIL") = false \/
   py_truthy (w_env (mkWorld ∅ keep0 [] [] []) !! "KEEP_PASSWORD") = false) /\
  login (mkWorld ∅ keep0 [] [] []) =
    (inl (ValueError msg_missing_credentials), creds_logged (mkWorld ∅ keep0 [] [] [])).
Proof.
  assert (H : py_truthy (w_env (mkWorld (K:=keep_state) ∅ keep0 [] [] []) !! "KEEP_EMAIL") = false \/
              py_truthy (w_env (mkWorld (K:=keep_state) ∅ keep0 [] [] []) !! "KEEP_PASSWORD") = false)
    by (left; reflexivity).
  split; [exact H|]. exact (login_missing_credentials _ H).
Defined.

Lemma login_with_credentials_witness :
  w_env world0 !! "KEEP_EMAIL" = Some "me@example.com" /\ "me@example.com" <> EmptyString /\
  w_env world0 !! "KEEP_PASSWORD" = Some "app-password" /\ "app-password" <> EmptyString /\
  let w1 := add_log (EvLogin "me@example.com" "app-password")
              (set_keep (keep_new (w_keep world0)) (add_log EvKeepNew (creds_logged world0))) in
  login world0 = match keep_login "me@example.com" "app-password" (keep_new (w_keep world0)) with
                 | (inl m, k') => (inl (KeepError m), set_keep k' w1)
                 | (inr false, k') => (inl (RuntimeError msg_login_failed), set_keep k' w1)
                 | (inr true, k') => (inr (), set_keep k' w1)
                 end.
Proof.
  assert (He : "me@example.com" <> EmptyString) by discriminate.
  assert (Hp : "app-password" <> EmptyString) by discriminate.
  split; [reflexivity|]. split; [exact He|]. split; [reflexivity|]. split; [exact Hp|].
  exact (login_with_credentials world0 _ _ eq_refl He eq_refl Hp).
Defined.

Lemma process_note_missing_witness :
  parse_args argv_missing = ArgsOk (mkNamespace (VStr "missing") (VStr "Urgent")) /\
  keep_login "me@example.com" "app-password" (keep_new (w_keep world0)) = (inr true, keep_session) /\
  acc_has_note "missing" (keep_remote (w_keep world0)) = false /\
  exists w', process prog argv_missing world0 = Some (1%nat, w') /\
    w_log w' = (w_log world0 ++ login_calls "me@example.com" "app-password" ++ [EvGet "missing"])%list /\
    w_stdout w' = w_stdout world0 /\
    w_stderr w' = (w_stderr world0 ++ ["ValueError: " +:+ msg_not_found "missing"])%list.
Proof.
  assert (Hp : parse_args argv_missing = ArgsOk (mkNamespace (VStr "missing") (VStr "Urgent"))) by reflexivity.
  assert (Hl : keep_login "me@example.com" "app-password" (keep_new (w_keep world0)) = (inr true, keep_session))
    by reflexivity.
  assert (Hn : acc_has_note "missing" (keep_remote (w_keep world0)) = false) by (vm_compute; reflexivity).
  split; [exact Hp|]. split; [exact Hl|]. split; [exact Hn|].
  exact (process_note_missing prog argv_missing _ _ world0 _ _ _ Hp world0_wf eq_refl
           ltac:(discriminate) eq_refl ltac:(discriminate) Hl Hn).
Defined.

Lemma add_label_existing_label_witness :
  keep_wf (w_keep world_logged) /\ keep_view (w_keep world_logged) = Some (view_acc acc_keep) /\
  acc_has_note "abc123" (view_acc acc_keep) = true /\ "Work" ∈ acc_labels (view_acc acc_keep) /\
  let w' := (add_label "abc123" "Work" world_logged).2 in
  w_log w' = (w_log world_logged ++ [EvGet "abc123"; EvFindLabel "Work"; EvLabelsAdd "abc123" "Work"; EvSync])%list /\
  (exists a', keep_view (w_keep w') = Some a' /\ acc_labels a' = acc_labels (view_acc acc_keep) /\
              a' = acc_tag "abc123" "Work" (view_acc acc_keep)).
Proof.
  assert (Hn : acc_has_note "abc123" (view_acc acc_keep) = true) by (vm_compute; reflexivity).
  assert (Hl : "Work" ∈ acc_labels (view_acc acc_keep)).
  { apply elem_of_map_img. exists 0%N. reflexivity. }
  split; [exact world_logged_wf|]. split; [reflexivity|]. split; [exact Hn|]. split; [exact Hl|].
  exact (add_label_existing_label world_logged "abc123" "Work" _ world_logged_wf eq_refl Hn Hl).
Defined.

Lemma add_label_idempotent_witness :
  add_label "abc123" "Urgent" world_logged = (inr (), world_tagged) /\
  let w2 := (add_label "abc123" "Urgent" world_tagged).2 in
  keep_view (w_keep w2) = keep_view (w_keep world_tagged) /\
  w_log w2 = (w_log world_tagged ++ [EvGet "abc123"; EvFindLabel "Urgent"; EvLabelsAdd "abc123" "Urgent"; EvSync])%list.
Proof.
  assert (Hn : acc_has_note "abc123" (view_acc acc_keep) = true) by (vm_compute; reflexivity).
  assert (Hr : add_label "abc123" "Urgent" world_logged = (inr (), world_tagged)) by (vm_compute; reflexivity).
  split; [exact Hr|].
  exact (add_label_idempotent world_logged "abc123" "Urgent" _ _ world_logged_wf eq_refl Hn Hr).
Defined.

Lemma main_body_call_order_witness :
  keep_wf (w_keep world0) /\
  let e := default EmptyString (w_env world0 !! "KEEP_EMAIL") in
  let p := default EmptyString (w_env world0 !! "KEEP_PASSWORD") in
  let '(r, w') := main_body "abc123" "Urgent" world0 in
  exists l created, w_log w' = (w_log world0 ++ l)%list /\
    l `prefix_of` (login_calls e p ++ add_label_calls "abc123" "Urgent" created)%list /\
    (r = inr () -> l = (login_calls e p ++ add_label_calls "abc123" "Urgent" created)%list).
Proof. split; [exact world0_wf|]. exact (main_body_call_order "abc123" "Urgent" world0 world0_wf). Defined.

Lemma main_body_preserves_wf_witness :
  keep_wf (w_keep world0) /\ keep_wf (w_keep (main_body "abc123" "Urgent" world0).2).
Proof. split; [exact world0_wf|]. exact (main_body_preserves_wf "abc123" "Urgent" world0 world0_wf). Defined.

Lemma process_exit_status_witness :
  process prog argv_urgent world0 = Some (0%nat, world_done) /\
  match parse_args argv_urgent with
  | ArgsOk ns =>
      match str_values ns with
      | Some (nid, lname) => (0 = 0 <-> (main_body nid lname world0).1 = inr ()) /\ (0 = 0 \/ 0 = 1)
      | None => False
      end
  | ArgsHelp => 0 = 0
  | ArgsError _ => 0 = 2
  end%nat.
Proof.
  pose proof run_urgent as H.
  split; [exact H|]. exact (process_exit_status prog argv_urgent world0 0 world_done H).
Defined.

Lemma parse_args_both_orders_witness :
  classify "abc123" = TPos /\ classify "Urgent" = TPos /\
  parse_args ["--note"; "abc123"; "--label"; "Urgent"] = ArgsOk (mkNamespace (VStr "abc123") (VStr "Urgent")) /\
  parse_args ["--label"; "Urgent"; "--note"; "abc123"] = ArgsOk (mkNamespace (VStr "abc123") (VStr "Urgent")).
Proof.
  assert (Hn : classify "abc123" = TPos) by reflexivity.
  assert (Hl : classify "Urgent" = TPos) by reflexivity.
  split; [exact Hn|]. split; [exact Hl|]. exact (parse_args_both_orders _ _ Hn Hl).
Defined.

Lemma parse_args_last_note_wins_witness :
  parse_args argv_urgent = ArgsOk ns_urgent /\ classify "-7" = TPos /\
  parse_args (argv_urgent ++ ["--note"; "-7"])%list = ArgsOk (mkNamespace (VStr "-7") (VStr "Urgent")).
Proof.
  assert (Hp : parse_args argv_urgent = ArgsOk ns_urgent) by reflexivity.
  assert (Hn : classify "-7" = TPos) by reflexivity.
  split; [exact Hp|]. split; [exact Hn|]. exact (parse_args_last_note_wins _ _ _ Hp Hn).
Defined.

Lemma process_success_witness :
  parse_args argv_urgent = ArgsOk ns_urgent /\
  keep_login "me@example.com" "app-password" (keep_new (w_keep world0)) = (inr true, keep_session) /\
  spec_add_label "abc123" "Urgent" (keep_remote (w_keep world0)) =
    Some (acc_tag "abc123" "Urgent" (acc_define "Urgent" (keep_remote (w_keep world0)))) /\
  process prog argv_urgent world0 = Some (0%nat, world_done) /\
  ((0 = 0%nat /\ keep_remote (w_keep world_done) =
      acc_tag "abc123" "Urgent" (acc_define "Urgent" (keep_remote (w_keep world0))) /\
    w_stdout world_done = (w_stdout world0 ++ [msg_added "Urgent" "abc123"])%list) \/
   (0 = 1%nat /\ w_stdout world_done = w_stdout world0)).
Proof.
  assert (Hp : parse_args argv_urgent = ArgsOk ns_urgent) by reflexivity.
  assert (Hl : keep_login "me@example.com" "app-password" (keep_new (w_keep world0)) = (inr true, keep_session))
    by reflexivity.
  assert (Hs : spec_add_label "abc123" "Urgent" (keep_remote (w_keep world0)) =
               Some (acc_tag "abc123" "Urgent" (acc_define "Urgent" (keep_remote (w_keep world0)))))
    by (vm_compute; reflexivity).
  pose proof run_urgent as Hr.
  split; [exact Hp|]. split; [exact Hl|]. split; [exact Hs|]. split; [exact Hr|].
  exact (process_success prog argv_urgent "abc123" "Urgent" world0 _ _ _ _ _ _ Hp world0_wf eq_refl
           ltac:(discriminate) eq_refl ltac:(discriminate) Hl Hs Hr).
Defined.

Lemma process_sync_failure_witness :
  keep_wf (w_keep world_rejecting) /\
  keep_login "me@example.com" "app-password" (keep_new (w_keep world_rejecting)) =
    (inr true, ks_set_local (Some acc_keep) (km_new keep_rejecting)) /\
  process prog argv_urgent world_rejecting = Some (1%nat, world_rejected) /\
  last (w_log world_rejected) = Some EvSync /\
  1%nat = 1%nat /\ w_stdout world_rejected = w_stdout world_rejecting /\
  keep_view (w_keep world_rejected) =
    Some (acc_tag "abc123" "Urgent" (acc_define "Urgent" (keep_remote (w_keep world_rejecting)))) /\
  keep_remote (w_keep world_rejected) = keep_remote (w_keep world_rejecting).
Proof.
  assert (Hwf : keep_wf (w_keep world_rejecting))
    by (apply km_wf_check_sound; vm_compute; reflexivity).
  assert (Hl : keep_login "me@example.com" "app-password" (keep_new (w_keep world_rejecting)) =
               (inr true, ks_set_local (Some acc_keep) (km_new keep_rejecting))) by reflexivity.
  pose proof run_rejected as Hr.
  assert (Hlast : last (w_log world_rejected) = Some EvSync) by (vm_compute; reflexivity).
  assert (Hn : acc_has_note "abc123" (keep_remote (w_keep world_rejecting)) = true)
    by (vm_compute; reflexivity).
  split; [exact Hwf|]. split; [exact Hl|]. split; [exact Hr|]. split; [exact Hlast|].
  exact (process_sync_failure prog argv_urgent "abc123" "Urgent" world_rejecting _ _ _ 1 world_rejected
           eq_refl Hwf eq_refl ltac:(discriminate) eq_refl ltac:(discriminate) Hl Hn Hr
           ltac:(discriminate) Hlast).
Defined.

Lemma parse_args_help_first_witness :
  parse_args ("-h" :: argv_urgent) = ArgsHelp.
Proof.
  exact (parse_args_help_first argv_urgent ltac:(vm_compute; reflexivity)).
Defined.

Lemma classify_abbreviations_witness :
  classify "--no" = TOpt OptNote None /\ classify "--lab" = TOpt OptLabel None.
Proof.
  split.
  - exact (proj1 (classify_abbreviations "--no" ltac:(cbn; lia)) eq_refl).
  - exact (proj1 (proj2 (classify_abbreviations "--lab" ltac:(cbn; lia))) eq_refl).
Defined.

Lemma parse_args_values_from_argv_witness :
  parse_args ["--no=abc123"; "--lab"; "Urgent"] = ArgsOk (mkNamespace (VStr "abc123") (VStr "Urgent")) /\
  value_from_argv "abc123" ["--no=abc123"; "--lab"; "Urgent"].
Proof.
  assert (Hp : parse_args ["--no=abc123"; "--lab"; "Urgent"] = ArgsOk (mkNamespace (VStr "abc123") (VStr "Urgent")))
    by (vm_compute; reflexivity).
  split; [exact Hp|]. exact (parse_args_values_from_argv _ _ "abc123" Hp (or_introl eq_refl)).
Defined.

Lemma parse_args_explicit_roundtrip_witness :
  parse_args ["--note=" +:+ "-abc"; "--label=" +:+ "a b"] = ArgsOk (mkNamespace (VStr "-abc") (VStr "a b")).
Proof. exact (parse_args_explicit_roundtrip "-abc" "a b" ltac:(discriminate) ltac:(discriminate)). Defined.

Lemma parse_args_value_types_witness :
  parse_args ["--note=--"; "--label"; "Urgent"] = ArgsOk (mkNamespace (VList []) (VStr "Urgent")) /\
  (VList [] = VList [] \/ exists s, VList [] = VStr s /\ s <> "--").
Proof.
  assert (Hp : parse_args ["--note=--"; "--label"; "Urgent"] = ArgsOk (mkNamespace (VList []) (VStr "Urgent")))
    by (vm_compute; reflexivity).
  split; [exact Hp|]. exact (parse_args_value_types _ _ (VList []) Hp (or_introl eq_refl)).
Defined.

Lemma parse_args_dashdash_note_witness :
  classify "Urgent" = TPos /\
  parse_args ["--note=--"; "--label"; "Urgent"] = ArgsOk (mkNamespace (VList []) (VStr "Urgent")) /\
  str_values (mkNamespace (VList []) (VStr "Urgent")) = None.
Proof.
  assert (Hl : classify "Urgent" = TPos) by reflexivity.
  split; [exact Hl|]. exact (parse_args_dashdash_note "Urgent" Hl).
Defined.

Lemma parse_args_separator_rejected_witness :
  parse_args (argv_urgent ++ ["--"; "x"])%list = ArgsError (ErrUnrecognized ["--"; "x"]) /\
  "--" ∈ ["--"; "x"].
Proof.
  assert (Hin : "--" ∈ (argv_urgent ++ ["--"; "x"])%list) by (apply elem_of_app; right; left).
  assert (Hp : parse_args (argv_urgent ++ ["--"; "x"])%list = ArgsError (ErrUnrecognized ["--"; "x"]))
    by (vm_compute; reflexivity).
  split; [exact Hp|]. exact (proj2 (parse_args_separator_rejected _ Hin) _ Hp).
Defined.

Lemma parse_args_refines_spec_witness :
  Forall arg_ok args_mixed /\ parse_args (render args_mixed) = spec_parse args_mixed.
Proof.
  assert (Hok : Forall arg_ok args_mixed)
    by (apply (bool_decide_unpack _); vm_compute; reflexivity).
  split; [exact Hok|]. exact (parse_args_refines_spec args_mixed Hok).
Defined.

Lemma process_render_witness :
  Forall arg_ok args_mixed /\
  process prog (render args_mixed) world0 =
    Some (let '(r, w') := main_body "todo" "-x" world0 in finish r w').
Proof.
  assert (Hok : Forall arg_ok args_mixed)
    by (apply (bool_decide_unpack _); vm_compute; reflexivity).
  split; [exact Hok|]. exact (process_render prog args_mixed world0 Hok).
Defined.

Lemma process_call_bounds_witness :
  keep_wf (w_keep world0) /\ process prog argv_urgent world0 = Some (0%nat, world_done) /\
  exists l, w_log world_done = (w_log world0 ++ l)%list /\ length l <= 9 /\
    count_events is_new l <= 1 /\ count_events is_network l <= 2 /\ count_events is_sync l <= 1.
Proof.
  split; [exact world0_wf|]. split; [exact run_urgent|].
  exact (process_call_bounds prog argv_urgent world0 0 world_done world0_wf run_urgent).
Defined.

Lemma process_reaches_sync_witness :
  parse_args argv_urgent = ArgsOk ns_urgent /\
  keep_login "me@example.com" "app-password" (keep_new (w_keep world0)) = (inr true, keep_session) /\
  acc_has_note "abc123" (keep_remote (w_keep world0)) = true /\
  (last (w_log world_done) = Some EvSync \/
   (last (w_log world_done) = Some (EvCreateLabel "Urgent") /\ 0%nat = 1%nat)).
Proof.
  assert (Hp : parse_args argv_urgent = ArgsOk ns_urgent) by reflexivity.
  assert (Hl : keep_login "me@example.com" "app-password" (keep_new (w_keep world0)) = (inr true, keep_session))
    by reflexivity.
  assert (Hn : acc_has_note "abc123" (keep_remote (w_keep world0)) = true) by (vm_compute; reflexivity).
  split; [exact Hp|]. split; [exact Hl|]. split; [exact Hn|].
  exact (process_reaches_sync prog argv_urgent "abc123" "Urgent" world0 _ _ _ 0 world_done Hp world0_wf
           eq_refl ltac:(discriminate) eq_refl ltac:(discriminate) Hl Hn run_urgent).
Defined.

Lemma doc_usage_runs_witness :
  classify "abc123" = TPos /\ classify "Urgent" = TPos /\
  process doc_prog (doc_usage "abc123" "Urgent") world0 =
    Some (let '(r, w') := main_body "abc123" "Urgent" world0 in finish r w').
Proof.
  assert (Hn : classify "abc123" = TPos) by reflexivity.
  assert (Hl : classify "Urgent" = TPos) by reflexivity.
  split; [exact Hn|]. split; [exact Hl|]. exact (doc_usage_runs "abc123" "Urgent" world0 Hn Hl).
Defined.

Lemma doc_steps_in_run_witness :
  process doc_prog (doc_usage "abc123" "Urgent") world0 = Some (0%nat, world_done) /\
  exists l created, w_log world_done = (w_log world0 ++ l)%list /\
    (EvGetenv <$> doc_env_vars) `prefix_of` l /\
    doc_steps "me@example.com" "app-password" "abc123" "Urgent" created `sublist_of` l /\
    EvGet "abc123" ∈ l /\ last l = Some EvSync.
Proof.
  assert (Hr : process doc_prog (doc_usage "abc123" "Urgent") world0 = Some (0%nat, world_done))
    by exact run_urgent.
  split; [exact Hr|].
  exact (doc_steps_in_run "abc123" "Urgent" world0 world_done eq_refl eq_refl world0_wf Hr).
Defined.

Lemma keep_model_process_ok_witness :
  km_wf keep0 /\ ks_online keep0 = true /\ ks_accepts keep0 = true /\
  env_ok !! "KEEP_EMAIL" = Some (ks_email keep0) /\ ks_email keep0 <> EmptyString /\
  env_ok !! "KEEP_PASSWORD" = Some (ks_password keep0) /\ ks_password keep0 <> EmptyString /\
  classify "abc123" = TPos /\ classify "Urgent" = TPos /\
  acc_has_note "abc123" (view_acc (ks_remote keep0)) = true /\
  exists w', process doc_prog (doc_usage "abc123" "Urgent") (mkWorld env_ok keep0 [] [] []) = Some (0%nat, w') /\
    w_stdout w' = [msg_added "Urgent" "abc123"] /\
    view_acc (ks_remote (w_keep w')) =
      acc_tag "abc123" "Urgent" (acc_define "Urgent" (view_acc (ks_remote keep0))).
Proof.
  assert (Hwf : km_wf keep0) by (apply km_wf_check_sound; vm_compute; reflexivity).
  assert (He : env_ok !! "KEEP_EMAIL" = Some (ks_email keep0)) by reflexivity.
  assert (Hp : env_ok !! "KEEP_PASSWORD" = Some (ks_password keep0)) by reflexivity.
  assert (Hne : ks_email keep0 <> EmptyString) by discriminate.
  assert (Hpne : ks_password keep0 <> EmptyString) by discriminate.
  assert (Hn : classify "abc123" = TPos) by reflexivity.
  assert (Hl : classify "Urgent" = TPos) by reflexivity.
  assert (Hnote : acc_has_note "abc123" (view_acc (ks_remote keep0)) = true) by (vm_compute; reflexivity).
  split_and!; try assumption; try reflexivity.
  exact (keep_model_process_ok keep0 env_ok "abc123" "Urgent" Hwf eq_refl eq_refl He Hne Hp Hpne Hn Hl Hnote).
Defined.

Lemma parse_args_dash_values_witness :
  "-abc" <> "--" /\ classify "-abc" <> TPos /\ (forall ms, classify "-abc" <> TAmbiguous ms) /\
  classify "x" = TPos /\
  parse_args ["--note"; "-abc"; "--label"; "x"] = ArgsError (ErrExpectedOne OptNote) /\
  parse_args ["--note=" +:+ "-abc"; "--label"; "x"] = ArgsOk (mkNamespace (VStr "-abc") (VStr "x")).
Proof.
  assert (H1 : "-abc" <> "--") by discriminate.
  assert (H2 : classify "-abc" <> TPos) by discriminate.
  assert (H3 : forall ms, classify "-abc" <> TAmbiguous ms) by discriminate.
  assert (H4 : classify "x" = TPos) by reflexivity.
  split_and!; try assumption.
  all: apply (parse_args_dash_values "-abc" "x" H1 H2 H3 H4).
Defined.

Lemma main_body_follows_protocol_witness :
  km_wf (w_keep world0) /\
  exists l, w_log (main_body "abc123" "Urgent" world0).2 = (w_log world0 ++ l)%list /\
    km_trace (w_keep world0) l (w_keep (main_body "abc123" "Urgent" world0).2) /\
    ((main_body "abc123" "Urgent" world0).1 = inr () ->
     exists l0, l = (l0 ++ [EvLabelsAdd "abc123" "Urgent"; EvSync])%list).
Proof.
  split; [exact world0_wf|]. exact (main_body_follows_protocol "abc123" "Urgent" world0 world0_wf).
Defined.

Lemma keep_model_empty_label_witness :
  km_wf keep0 /\ ks_online keep0 = true /\ ks_accepts keep0 = true /\
  env_ok !! "KEEP_EMAIL" = Some (ks_email keep0) /\ ks_email keep0 <> EmptyString /\
  env_ok !! "KEEP_PASSWORD" = Some (ks_password keep0) /\ ks_password keep0 <> EmptyString /\
  classify "abc123" = TPos /\ acc_has_note "abc123" (view_acc (ks_remote keep0)) = true /\
  exists w', process doc_prog ["--note"; "abc123"; "--label="] (mkWorld env_ok keep0 [] [] []) = Some (0%nat, w') /\
    w_stdout w' = ["Label '' added to note " +:+ "abc123"] /\
    view_acc (ks_remote (w_keep w')) =
      acc_tag "abc123" EmptyString (acc_define EmptyString (view_acc (ks_remote keep0))).
Proof.
  assert (Hwf : km_wf keep0) by (apply km_wf_check_sound; vm_compute; reflexivity).
  assert (He : env_ok !! "KEEP_EMAIL" = Some (ks_email keep0)) by reflexivity.
  assert (Hp : env_ok !! "KEEP_PASSWORD" = Some (ks_password keep0)) by reflexivity.
  assert (Hne : ks_email keep0 <> EmptyString) by discriminate.
  assert (Hpne : ks_password keep0 <> EmptyString) by discriminate.
  assert (Hn : classify "abc123" = TPos) by reflexivity.
  assert (Hnote : acc_has_note "abc123" (view_acc (ks_remote keep0)) = true) by (vm_compute; reflexivity).
  split_and!; try assumption; try reflexivity.
  exact (keep_model_empty_label keep0 env_ok "abc123" Hwf eq_refl eq_refl He Hne Hp Hpne Hn Hnote).
Defined.
